(** * tcpproxy: SNI sniffing, ACME probing, STARTTLS preambles, static routes

    A shallow embedding of the routing core of the tcpproxy repository
    (package [tcpproxy]: sni.go, starttls_imap.go, starttls_smtp.go; package
    [main] of the tlsrouter command: its line-oriented config), with the
    properties its specification states about them.

    Go values are embedded as follows.
    - [string] is a Go string: a sequence of bytes, one [ascii] each. Where
      Go reads a string as UTF-8 (fmt's scanner, [strings.Fields]) the model
      decodes it the way [unicode/utf8] does.
    - [[]byte] is [list byte]; [int] and [rune] are [Z].
    - [error] is the inductive [error]; a nil error is [None].
    - A method that mutates its receiver returns the new receiver; a map of
      pointers ([Proxy.configs]) is a [gmap] of values, and a pointer into
      it is its key.
    - Library functions the code calls (bufio, fmt, strings, unicode/utf8,
      net/textproto) are embedded from their documented behaviour, in
      modules named after their packages; crypto/tls, crypto/x509, regexp
      and strconv are section variables.
    - Goroutines appear where the code starts them ([acmeMatch.match]): the
      order in which they finish is an argument of the model.

    Layout: [Utf8], [Strings], [Fmt], [Textproto], [Bufio] (the library
    side); [StartTLS] (starttls_imap.go, starttls_smtp.go), [Sni] (sni.go),
    [TlsRouter] (the tlsrouter config). Each module gives its definitions
    first and its theorems after them. *)

From Stdlib Require Import String Ascii List ZArith NArith Lia Bool Permutation.
From Stdlib.Strings Require Import Byte.
From stdpp Require Import gmap strings.
Import ListNotations.

Open Scope string_scope.
Open Scope list_scope.
Open Scope Z_scope.

(** Go's [error] values that the modelled code can produce or pass on. *)
Inductive error : Type :=
| EOF                              (* io.EOF *)
| ErrUnexpectedEOF                 (* io.ErrUnexpectedEOF *)
| ErrBufferFull                    (* bufio.ErrBufferFull *)
| ErrTooLong                       (* bufio.ErrTooLong *)
| errorString (msg : string).      (* errors.New / fmt.Errorf *)

(** A Go [byte]. *)
Abbreviation byte := Byte.byte.

(** A Go [rune] is an int32 code point. *)
Definition rune : Type := Z.

Definition byteZ (c : ascii) : Z := Z.of_N (N_of_ascii c).
Definition Zbyte (z : Z) : ascii := ascii_of_N (Z.to_N (z mod 256)).

(** ** unicode/utf8 *)
Module Utf8.

Definition RuneError : rune := 0xFFFD.
Definition RuneSelf : Z := 0x80.
Definition MaxRune : rune := 0x10FFFF.
Definition surrogateMin : rune := 0xD800.
Definition surrogateMax : rune := 0xDFFF.
Definition rune1Max : rune := 0x7F.
Definition rune2Max : rune := 0x7FF.
Definition rune3Max : rune := 0xFFFF.
Definition locb : Z := 0x80.
Definition hicb : Z := 0xBF.
Definition maskx : Z := 0x3F.
Definition mask2 : Z := 0x1F.
Definition mask3 : Z := 0x0F.
Definition mask4 : Z := 0x07.
Definition tx : Z := 0x80.
Definition t2 : Z := 0xC0.
Definition t3 : Z := 0xE0.
Definition t4 : Z := 0xF0.

(** The [first] and [acceptRanges] tables: for a leading byte, the length of
    the sequence it starts and the range its second byte must lie in;
    [None] for a byte that starts no multi-byte sequence. *)
Definition first (s0 : Z) : option (nat * Z * Z) :=
  if (0xC2 <=? s0) && (s0 <=? 0xDF) then Some (2%nat, locb, hicb)
  else if s0 =? 0xE0 then Some (3%nat, 0xA0, hicb)
  else if (0xE1 <=? s0) && (s0 <=? 0xEC) then Some (3%nat, locb, hicb)
  else if s0 =? 0xED then Some (3%nat, locb, 0x9F)
  else if (0xEE <=? s0) && (s0 <=? 0xEF) then Some (3%nat, locb, hicb)
  else if s0 =? 0xF0 then Some (4%nat, 0x90, hicb)
  else if (0xF1 <=? s0) && (s0 <=? 0xF3) then Some (4%nat, locb, hicb)
  else if s0 =? 0xF4 then Some (4%nat, locb, 0x8F)
  else None.

Definition cont (lo hi : Z) (c : ascii) : bool :=
  (lo <=? byteZ c) && (byteZ c <=? hi).

(** [DecodeRuneInString s]: the first rune of [s] and its width in bytes;
    [(RuneError, 0)] for the empty string, [(RuneError, 1)] for an invalid or
    truncated encoding. *)
Definition DecodeRuneInString (s : string) : rune * nat :=
  match s with
  | EmptyString => (RuneError, 0%nat)
  | String c0 t0 =>
    let s0 := byteZ c0 in
    if s0 <? RuneSelf then (s0, 1%nat)
    else
      match first s0 with
      | None => (RuneError, 1%nat)
      | Some (sz, lo, hi) =>
        if (String.length s <? sz)%nat then (RuneError, 1%nat)
        else
          match t0 with
          | EmptyString => (RuneError, 1%nat)
          | String c1 t1 =>
            if negb (cont lo hi c1) then (RuneError, 1%nat)
            else if (sz <=? 2)%nat then
              (Z.lor (Z.shiftl (Z.land s0 mask2) 6) (Z.land (byteZ c1) maskx), 2%nat)
            else
              match t1 with
              | EmptyString => (RuneError, 1%nat)
              | String c2 t2 =>
                if negb (cont locb hicb c2) then (RuneError, 1%nat)
                else if (sz <=? 3)%nat then
                  (Z.lor (Z.lor (Z.shiftl (Z.land s0 mask3) 12)
                                (Z.shiftl (Z.land (byteZ c1) maskx) 6))
                         (Z.land (byteZ c2) maskx), 3%nat)
                else
                  match t2 with
                  | EmptyString => (RuneError, 1%nat)
                  | String c3 _ =>
                    if negb (cont locb hicb c3) then (RuneError, 1%nat)
                    else
                      (Z.lor (Z.lor (Z.lor (Z.shiftl (Z.land s0 mask4) 18)
                                           (Z.shiftl (Z.land (byteZ c1) maskx) 12))
                                    (Z.shiftl (Z.land (byteZ c2) maskx) 6))
                             (Z.land (byteZ c3) maskx), 4%nat)
                  end
              end
          end
      end
  end.

Fixpoint drop (n : nat) (s : string) : string :=
  match n, s with
  | O, _ => s
  | S n', EmptyString => EmptyString
  | S n', String _ t => drop n' t
  end.

(** The runes of [s] in order, each with the bytes it was decoded from: what
    [for i, r := range s] and a rune reader over [s] yield. *)
Fixpoint runes_fuel (fuel : nat) (s : string) : list (rune * string) :=
  match fuel with
  | O => []
  | S fuel' =>
    match s with
    | EmptyString => []
    | _ =>
      let '(r, n) := DecodeRuneInString s in
      (r, String.substring 0 n s) :: runes_fuel fuel' (drop n s)
    end
  end.

Definition runes (s : string) : list (rune * string) :=
  runes_fuel (String.length s) s.

(** [AppendRune]: the UTF-8 encoding of [r] ([RuneError]'s when [r] is out of
    range or a surrogate). *)
Definition EncodeRune (r : rune) : string :=
  if (0 <=? r) && (r <=? rune1Max) then String (Zbyte r) ""
  else if (0 <=? r) && (r <=? rune2Max) then
    String (Zbyte (Z.lor t2 (Z.shiftr r 6)))
      (String (Zbyte (Z.lor tx (Z.land r maskx))) "")
  else if ((0 <=? r) && (r <? surrogateMin)) || ((surrogateMax <? r) && (r <=? rune3Max)) then
    String (Zbyte (Z.lor t3 (Z.shiftr r 12)))
      (String (Zbyte (Z.lor tx (Z.land (Z.shiftr r 6) maskx)))
        (String (Zbyte (Z.lor tx (Z.land r maskx))) ""))
  else if (rune3Max <? r) && (r <=? MaxRune) then
    String (Zbyte (Z.lor t4 (Z.shiftr r 18)))
      (String (Zbyte (Z.lor tx (Z.land (Z.shiftr r 12) maskx)))
        (String (Zbyte (Z.lor tx (Z.land (Z.shiftr r 6) maskx)))
          (String (Zbyte (Z.lor tx (Z.land r maskx))) "")))
  else String (Zbyte 0xEF) (String (Zbyte 0xBF) (String (Zbyte 0xBD) "")).

End Utf8.

(** ** unicode: the White_Space property, as [unicode.IsSpace] and fmt's
    [isSpace] both decide it. *)
Definition isSpace (r : rune) : bool :=
  ((0x09 <=? r) && (r <=? 0x0D))
  || (r =? 0x20) || (r =? 0x85) || (r =? 0xA0) || (r =? 0x1680)
  || ((0x2000 <=? r) && (r <=? 0x200A))
  || (r =? 0x2028) || (r =? 0x2029) || (r =? 0x202F) || (r =? 0x205F)
  || (r =? 0x3000).

(** ** strings *)
Module Strings.

(** [strings.FieldsFunc(s, unicode.IsSpace)]'s loop over the runes of [s]:
    [cur] is the field being read, if any. *)
Fixpoint fields_loop (rs : list (rune * string)) (cur : option string) : list string :=
  match rs with
  | [] => match cur with Some w => [w] | None => [] end
  | (r, bs) :: rs' =>
    if isSpace r then
      match cur with
      | Some w => w :: fields_loop rs' None
      | None => fields_loop rs' None
      end
    else fields_loop rs' (Some (match cur with Some w => w +:+ bs | None => bs end))
  end.

(** [strings.Fields]: the maximal runs of non-space runes of [s], in order. *)
Definition Fields (s : string) : list string := fields_loop (Utf8.runes s) None.

(** [strings.Cut(s, sep)]: [s] around the first instance of [sep]. *)
Fixpoint Cut (s sep : string) : string * string * bool :=
  if String.prefix sep s then (EmptyString, Utf8.drop (String.length sep) s, true)
  else
    match s with
    | EmptyString => (s, EmptyString, false)
    | String c t =>
      let '(before, after, found) := Cut t sep in
      if found then (String c before, after, true) else (s, EmptyString, false)
    end.

(** [strings.HasSuffix(s, suffix)]. *)
Definition HasSuffix (s suffix : string) : bool :=
  (String.length suffix <=? String.length s)%nat
  && String.eqb (Utf8.drop (String.length s - String.length suffix) s) suffix.

(** *** Fields are not empty *)

Lemma DecodeRuneInString_width (c : ascii) (t : string) :
  (1 <= snd (Utf8.DecodeRuneInString (String c t)))%nat.
Proof.
  unfold Utf8.DecodeRuneInString. cbv zeta.
  repeat match goal with
         | |- context [if ?b then _ else _] => destruct b
         | |- context [match ?x with _ => _ end] => destruct x
         end; cbn [snd]; lia.
Qed.

Lemma runes_fuel_nonempty (fuel : nat) (s : string) :
  Forall (fun rb => snd rb <> EmptyString) (Utf8.runes_fuel fuel s).
Proof.
  revert s. induction fuel as [|fuel IH]; intros s; [constructor|].
  destruct s as [|c t]; [constructor|].
  cbn [Utf8.runes_fuel].
  pose proof (DecodeRuneInString_width c t) as Hw.
  destruct (Utf8.DecodeRuneInString (String c t)) as [r n]. cbn [snd] in Hw.
  constructor; [|apply IH].
  destruct n as [|n]; [lia|]. cbn. discriminate.
Qed.

Lemma fields_loop_nonempty (rs : list (rune * string)) (cur : option string) :
  Forall (fun rb => snd rb <> EmptyString) rs ->
  (forall w, cur = Some w -> w <> EmptyString) ->
  Forall (fun w => w <> EmptyString) (fields_loop rs cur).
Proof.
  intros Hrs. revert cur. induction Hrs as [|[r bs] rs Hbs _ IH]; intros cur Hcur.
  - destruct cur as [w|]; constructor; [now apply Hcur | constructor].
  - cbn [fields_loop]. cbn [snd] in Hbs. destruct (isSpace r).
    + destruct cur as [w|].
      * constructor; [now apply Hcur|]. apply IH. discriminate.
      * apply IH. discriminate.
    + apply IH. intros w' [= <-]. destruct cur as [w|]; [|assumption].
      specialize (Hcur w eq_refl). destruct w; [contradiction | discriminate].
Qed.

(** No field of [Fields s] is the empty string. *)
Lemma Fields_nonempty (s : string) : Forall (fun w => w <> EmptyString) (Fields s).
Proof.
  apply fields_loop_nonempty; [apply runes_fuel_nonempty | discriminate].
Qed.

End Strings.

(** ** fmt: [Sscanf(l, "EHLO %s", &clientName)]

    The scan state reads the runes of the input one at a time and reports
    end of input after [hugeWid] runes. *)
Module Fmt.

Definition hugeWid : Z := 2 ^ 30.

(** The runes the scan state can read: at most [n] of them. *)
Fixpoint limit {A : Type} (n : Z) (l : list A) : list A :=
  match l with
  | [] => []
  | x :: l' => if n <=? 0 then [] else x :: limit (n - 1) l'
  end.

Definition scanError (msg : string) : error := errorString msg.

(** A literal character of the format ([ss.advance], "Literals"). *)
Definition literal (c : rune) (rs : list rune) : error + list rune :=
  match rs with
  | [] => inl ErrUnexpectedEOF
  | r :: rs' => if r =? c then inr rs' else inl (scanError "input does not match format")
  end.

Fixpoint literals (cs : list rune) (rs : list rune) : error + list rune :=
  match cs with
  | [] => inr rs
  | c :: cs' =>
    match literal c rs with
    | inl e => inl e
    | inr rs' => literals cs' rs'
    end
  end.

(** [for isSpace(inputc) && inputc != '\n' { inputc = s.getRune() }], then the
    rune that stopped the loop is unread. *)
Fixpoint skipBlanks (rs : list rune) : list rune :=
  match rs with
  | [] => []
  | r :: rs' => if isSpace r && negb (r =? 10) then skipBlanks rs' else rs
  end.

(** A space of the format that follows no newline ([ss.advance], "Space
    processing"): one or more spaces of the input, or its end. *)
Definition formatSpace (rs : list rune) : error + list rune :=
  match rs with
  | [] => inr []
  | r :: rs' =>
    if negb (isSpace r) then inl (scanError "expected space in input to match format")
    else if r =? 10 then inl (scanError "newline in input does not match format")
    else inr (skipBlanks rs')
  end.

(** [ss.SkipSpace] with [nlIsSpace] false. A carriage return is a space
    whether or not a newline follows it, so the loop's [peek] case is the
    space case. *)
Fixpoint SkipSpace (rs : list rune) : error + list rune :=
  match rs with
  | [] => inr []
  | r :: rs' =>
    if r =? 10 then inl (scanError "unexpected newline")
    else if isSpace r then SkipSpace rs'
    else inr rs
  end.

(** [ss.token(true, notSpace)] after its [SkipSpace]: the runes up to the
    next space or the end. *)
Fixpoint token (rs : list rune) : list rune :=
  match rs with
  | [] => []
  | r :: rs' => if isSpace r then [] else r :: token rs'
  end.

Definition bytesOf (rs : list rune) : string :=
  fold_right (fun r s => Utf8.EncodeRune r +:+ s) EmptyString rs.

(** [ss.convertString('s')]: skip spaces, fail at the end of the input, read
    a token. *)
Definition convertString (rs : list rune) : error + string :=
  match SkipSpace rs with
  | inl e => inl e
  | inr rs1 =>
    match rs1 with
    | [] => inl EOF
    | _ =>
      match SkipSpace rs1 with
      | inl e => inl e
      | inr rs2 => inr (bytesOf (token rs2))
      end
    end
  end.

Definition EHLO : list rune := [69; 72; 76; 79].

(** The runes of the line that the scan state can read. *)
Definition input (l : string) : list rune := limit hugeWid (map fst (Utf8.runes l)).

(** [fmt.Sscanf(l, "EHLO %s", &clientName)]: the number of operands scanned,
    the error, and [clientName] after the call (it was empty before). *)
Definition Sscanf_EHLO (l : string) : Z * option error * string :=
  let rs := input l in
  match literals EHLO rs with
  | inl e => (0, Some e, EmptyString)
  | inr rs1 =>
    match formatSpace rs1 with
    | inl e => (0, Some e, EmptyString)
    | inr rs2 =>
      (* the verb: doScanf skips spaces, then scanOne converts a string *)
      match SkipSpace rs2 with
      | inl e => (0, Some e, EmptyString)
      | inr rs3 =>
        match convertString rs3 with
        | inl e => (0, Some e, EmptyString)
        | inr name => (1, None, name)
        end
      end
    end
  end.

(** *** What [Sscanf_EHLO] accepts *)

(** A space that is no newline. *)
Definition blankRune (r : rune) : bool := isSpace r && negb (r =? 10).

(** Nothing follows, or a space does. *)
Definition wordEnd (more : list rune) : Prop :=
  match more with
  | [] => True
  | r :: _ => isSpace r = true
  end.

(** The runes [rs] are [EHLO], one or more spaces none of which is a
    newline, the word [tok], and then nothing or a space and anything. *)
Definition accepted (rs tok : list rune) : Prop :=
  exists sp more,
    rs = EHLO ++ sp ++ tok ++ more
    /\ sp <> [] /\ Forall (fun r => blankRune r = true) sp
    /\ tok <> [] /\ Forall (fun r => isSpace r = false) tok
    /\ wordEnd more.

Lemma literals_inr (cs rs rs' : list rune) :
  literals cs rs = inr rs' <-> rs = cs ++ rs'.
Proof.
  revert rs. induction cs as [|c cs IH]; intros rs; simpl.
  - split; [intros H; now inversion H | now intros ->].
  - destruct rs as [|r rs]; simpl; [split; discriminate|].
    destruct (r =? c) eqn:E.
    + apply Z.eqb_eq in E. subst r. rewrite IH. split; [now intros -> | now intros [= ->]].
    + apply Z.eqb_neq in E. split; [discriminate | intros [= H _]; contradiction].
Qed.

Lemma skipBlanks_split (rs : list rune) :
  exists sp,
    rs = sp ++ skipBlanks rs
    /\ Forall (fun r => blankRune r = true) sp
    /\ match skipBlanks rs with [] => True | r :: _ => blankRune r = false end.
Proof.
  induction rs as [|r rs (sp & Hsp & Hall & Hhd)]; simpl.
  - exists []. auto.
  - fold (blankRune r). destruct (blankRune r) eqn:E.
    + exists (r :: sp). split; [simpl; congruence|]. split; [constructor; assumption | assumption].
    + exists []. auto.
Qed.

Lemma skipBlanks_app (sp rs : list rune) :
  Forall (fun r => blankRune r = true) sp ->
  match rs with [] => True | r :: _ => blankRune r = false end ->
  skipBlanks (sp ++ rs) = rs.
Proof.
  induction 1 as [|r sp Hr _ IH]; intros Hrs; simpl.
  - destruct rs as [|r rs]; simpl; [reflexivity|]. fold (blankRune r). now rewrite Hrs.
  - fold (blankRune r). rewrite Hr. now apply IH.
Qed.

Lemma SkipSpace_split (rs rs' : list rune) :
  SkipSpace rs = inr rs' ->
  exists sp,
    rs = sp ++ rs'
    /\ Forall (fun r => blankRune r = true) sp
    /\ match rs' with [] => True | r :: _ => isSpace r = false end.
Proof.
  revert rs'. induction rs as [|r rs IH]; intros rs'; simpl.
  - intros [= <-]. exists []. auto.
  - destruct (r =? 10) eqn:Enl; [discriminate|].
    destruct (isSpace r) eqn:Esp.
    + intros H. destruct (IH _ H) as (sp & -> & Hall & Hhd).
      exists (r :: sp). split; [reflexivity|]. split; [|assumption].
      constructor; [|assumption]. unfold blankRune. now rewrite Esp, Enl.
    + intros [= <-]. exists []. simpl. auto.
Qed.

Lemma blankRune_isSpace (r : rune) : isSpace r = false -> blankRune r = false.
Proof. unfold blankRune. now intros ->. Qed.

Lemma SkipSpace_word (rs : list rune) :
  match rs with [] => True | r :: _ => isSpace r = false end ->
  SkipSpace rs = inr rs.
Proof.
  destruct rs as [|r rs]; simpl; [reflexivity|]. intros H. rewrite H.
  destruct (r =? 10) eqn:E; [|reflexivity].
  apply Z.eqb_eq in E. subst r. discriminate.
Qed.

Lemma SkipSpace_app (sp rs : list rune) :
  Forall (fun r => blankRune r = true) sp ->
  match rs with [] => True | r :: _ => isSpace r = false end ->
  SkipSpace (sp ++ rs) = inr rs.
Proof.
  induction 1 as [|r sp Hr _ IH]; intros Hrs; simpl.
  - now apply SkipSpace_word.
  - unfold blankRune in Hr. apply andb_prop in Hr as [Hsp Hnl].
    apply negb_true_iff in Hnl. rewrite Hnl, Hsp. now apply IH.
Qed.

Lemma convertString_word (rs : list rune) :
  rs <> [] ->
  match rs with [] => True | r :: _ => isSpace r = false end ->
  convertString rs = inr (bytesOf (token rs)).
Proof.
  intros Hne Hhd. unfold convertString. rewrite (SkipSpace_word _ Hhd).
  destruct rs as [|r rs]; [congruence|]. now rewrite (SkipSpace_word (r :: rs) Hhd).
Qed.

Lemma token_split (rs : list rune) :
  exists more,
    rs = token rs ++ more
    /\ Forall (fun r => isSpace r = false) (token rs)
    /\ wordEnd more.
Proof.
  induction rs as [|r rs (more & Hm & Hall & Hend)]; simpl.
  - exists []. simpl. auto.
  - destruct (isSpace r) eqn:E.
    + exists (r :: rs). simpl. auto.
    + exists more. split; [simpl; congruence|]. split; [constructor; assumption | assumption].
Qed.

Lemma token_app (tok more : list rune) :
  Forall (fun r => isSpace r = false) tok -> wordEnd more ->
  token (tok ++ more) = tok.
Proof.
  induction 1 as [|r tok Hr _ IH]; intros Hend; simpl.
  - destruct more as [|r more]; simpl in *; [reflexivity | now rewrite Hend].
  - rewrite Hr. f_equal. now apply IH.
Qed.

Lemma EncodeRune_nonempty (r : rune) : Utf8.EncodeRune r <> EmptyString.
Proof.
  unfold Utf8.EncodeRune.
  repeat match goal with |- context [if ?b then _ else _] => destruct b end; discriminate.
Qed.

Lemma bytesOf_nonempty (tok : list rune) : tok <> [] -> bytesOf tok <> EmptyString.
Proof.
  destruct tok as [|r tok]; [congruence|]. intros _. simpl.
  pose proof (EncodeRune_nonempty r) as H.
  destruct (Utf8.EncodeRune r); [congruence | discriminate].
Qed.

(** The scan succeeds exactly on the accepted lines, with the word as the
    client name. *)
Lemma Sscanf_EHLO_ok (l name : string) :
  Sscanf_EHLO l = (1, None, name) <-> exists tok, accepted (input l) tok /\ name = bytesOf tok.
Proof.
  unfold Sscanf_EHLO. cbv zeta. split.
  - destruct (literals EHLO (input l)) as [e | rs1] eqn:E1; [discriminate|].
    apply literals_inr in E1.
    unfold formatSpace.
    destruct rs1 as [|r rs1]; [simpl; discriminate|].
    destruct (isSpace r) eqn:Esp; simpl; [|discriminate].
    destruct (r =? 10) eqn:Enl; [discriminate|].
    destruct (skipBlanks_split rs1) as (sp1 & Hsp1 & Hall1 & _).
    destruct (SkipSpace (skipBlanks rs1)) as [e | rs3] eqn:E3; [discriminate|].
    apply SkipSpace_split in E3 as (sp2 & Hsp2 & Hall2 & _).
    unfold convertString.
    destruct (SkipSpace rs3) as [e | rs4] eqn:E4; [discriminate|].
    apply SkipSpace_split in E4 as (sp3 & Hsp3 & Hall3 & Hhd4).
    destruct rs4 as [|r4 rs4]; [discriminate|].
    rewrite (SkipSpace_word (r4 :: rs4) Hhd4).
    intros [= <-].
    destruct (token_split (r4 :: rs4)) as (more & Hm & Htok & Hend).
    exists (token (r4 :: rs4)). split; [|reflexivity].
    assert (Hne : token (r4 :: rs4) <> []) by (simpl; rewrite Hhd4; discriminate).
    set (tk := token (r4 :: rs4)) in *.
    exists (r :: sp1 ++ sp2 ++ sp3), more.
    assert (Hrs1 : rs1 = sp1 ++ sp2 ++ sp3 ++ tk ++ more).
    { rewrite <- Hm, <- Hsp3, <- Hsp2. exact Hsp1. }
    split.
    { rewrite E1, Hrs1. simpl. rewrite <- !app_assoc. reflexivity. }
    split; [discriminate|]. split.
    { constructor; [unfold blankRune; now rewrite Esp, Enl|].
      apply Forall_app; split; [assumption|]. apply Forall_app; split; assumption. }
    split; [assumption|].
    split; assumption.
  - intros (tok & (sp & more & Hrs & Hsp & Hall & Htok & Hword & Hend) & ->).
    rewrite Hrs.
    assert (E1 : literals EHLO (EHLO ++ sp ++ tok ++ more) = inr (sp ++ tok ++ more))
      by now apply literals_inr.
    rewrite E1.
    destruct sp as [|r sp]; [congruence|].
    inversion Hall as [|? ? Hr Hall']; subst.
    assert (Hhd : match tok ++ more with [] => True | r0 :: _ => isSpace r0 = false end).
    { destruct tok as [|t tok]; [congruence|]. simpl. now inversion Hword. }
    assert (Hhd' : match tok ++ more with [] => True | r0 :: _ => blankRune r0 = false end).
    { destruct (tok ++ more); [exact I | now apply blankRune_isSpace]. }
    unfold formatSpace. simpl.
    unfold blankRune in Hr. apply andb_prop in Hr as [Hsp' Hnl].
    apply negb_true_iff in Hnl. rewrite Hsp', Hnl. simpl.
    rewrite (skipBlanks_app sp (tok ++ more) Hall' Hhd').
    rewrite (SkipSpace_word _ Hhd).
    assert (Hne : tok ++ more <> []) by (destruct tok; [congruence | discriminate]).
    rewrite (convertString_word _ Hne Hhd), (token_app tok more Hword Hend).
    reflexivity.
Qed.

(** Any other line is an error, and leaves the client name empty. *)
Lemma Sscanf_EHLO_cases (l : string) :
  (exists name, Sscanf_EHLO l = (1, None, name))
  \/ (exists e, Sscanf_EHLO l = (0, Some e, EmptyString)).
Proof.
  unfold Sscanf_EHLO. cbv zeta.
  destruct (literals EHLO (input l)); [eauto|].
  destruct (formatSpace _); [eauto|].
  destruct (SkipSpace _); [eauto|].
  destruct (convertString _); eauto.
Qed.

(** *** Lines of ASCII bytes *)

Fixpoint asciiOnly (s : string) : bool :=
  match s with
  | EmptyString => true
  | String c t => (byteZ c <? Utf8.RuneSelf) && asciiOnly t
  end.

Definition chars (s : string) : list rune := map byteZ (list_ascii_of_string s).

Lemma length_chars (s : string) : length (chars s) = String.length s.
Proof. induction s as [|c s IH]; simpl; [reflexivity | now rewrite <- IH]. Qed.

Lemma runes_ascii_app (s t : string) :
  asciiOnly s = true ->
  map fst (Utf8.runes (s +:+ t)) = chars s ++ map fst (Utf8.runes t).
Proof.
  induction s as [|c s IH]; intros H; [reflexivity|].
  simpl in H. apply andb_prop in H as [Hc Hs].
  change (String c s +:+ t) with (String c (s +:+ t)).
  unfold Utf8.runes. cbn [String.length Utf8.runes_fuel Utf8.DecodeRuneInString].
  rewrite Hc. cbn [map fst Utf8.drop]. unfold chars. cbn [list_ascii_of_string map app].
  f_equal. apply (IH Hs).
Qed.

Lemma limit_app {A : Type} (n : Z) (l k : list A) :
  Z.of_nat (length l) <= n -> limit n (l ++ k) = l ++ limit (n - Z.of_nat (length l)) k.
Proof.
  revert n. induction l as [|x l IH]; intros n Hn; cbn [app limit length] in *.
  - now rewrite Z.sub_0_r.
  - rewrite Nat2Z.inj_succ in *.
    destruct (n <=? 0) eqn:E; [apply Z.leb_le in E; exfalso; lia|].
    f_equal. rewrite IH by lia.
    replace (n - 1 - Z.of_nat (length l)) with (n - Z.succ (Z.of_nat (length l))) by lia.
    reflexivity.
Qed.

Lemma bytesOf_chars (s : string) : asciiOnly s = true -> bytesOf (chars s) = s.
Proof.
  induction s as [|c s IH]; intros H; [reflexivity|].
  simpl in H. apply andb_prop in H as [Hc Hs]. apply Z.ltb_lt in Hc.
  unfold chars. cbn [list_ascii_of_string map bytesOf fold_right].
  fold (chars s). fold (bytesOf (chars s)). rewrite (IH Hs).
  unfold Utf8.EncodeRune, Utf8.rune1Max, Utf8.RuneSelf in *.
  assert (H0 : 0 <= byteZ c) by (unfold byteZ; lia).
  destruct ((0 <=? byteZ c) && (byteZ c <=? 127)) eqn:E.
  - unfold Zbyte, byteZ.
    rewrite Z.mod_small by (unfold byteZ in *; lia).
    rewrite N2Z.id, ascii_N_embedding. reflexivity.
  - apply andb_false_iff in E as [E|E]; [apply Z.leb_gt in E | apply Z.leb_gt in E]; lia.
Qed.

(** On a line of the bytes [EHLO], blanks, a word of ASCII bytes and then
    nothing or a space and anything, the scan returns the word. *)
Lemma Sscanf_EHLO_ascii (sp tok more : string) :
  asciiOnly sp = true -> sp <> EmptyString ->
  Forall (fun r => blankRune r = true) (chars sp) ->
  asciiOnly tok = true -> tok <> EmptyString ->
  Forall (fun r => isSpace r = false) (chars tok) ->
  more = EmptyString \/ (exists more', more = String " "%char more') ->
  Z.of_nat (4 + String.length sp + String.length tok) <= hugeWid ->
  Sscanf_EHLO ("EHLO" +:+ sp +:+ tok +:+ more) = (1, None, tok).
Proof.
  intros Hsp Hspne Hblank Htok Htokne Hword Hmore Hlen.
  apply Sscanf_EHLO_ok. exists (chars tok). split; [|now rewrite bytesOf_chars].
  unfold input.
  rewrite (runes_ascii_app "EHLO" _ eq_refl), (runes_ascii_app sp _ Hsp),
    (runes_ascii_app tok _ Htok).
  rewrite !app_assoc.
  assert (Hl : length ((chars "EHLO" ++ chars sp) ++ chars tok)
               = (4 + String.length sp + String.length tok)%nat).
  { rewrite !length_app, !length_chars. reflexivity. }
  rewrite limit_app by (rewrite Hl; exact Hlen).
  rewrite <- !app_assoc.
  exists (chars sp), (limit (hugeWid - Z.of_nat (length ((chars "EHLO" ++ chars sp) ++ chars tok)))
                        (map fst (Utf8.runes more))).
  split; [reflexivity|].
  split; [destruct sp; [congruence | discriminate]|].
  split; [assumption|].
  split; [destruct tok; [congruence | discriminate]|].
  split; [assumption|].
  destruct Hmore as [-> | [more' ->]]; [exact I|].
  change (String " "%char more') with (" " +:+ more').
  rewrite (runes_ascii_app " " more' eq_refl). simpl.
  destruct (_ <=? 0); [exact I | reflexivity].
Qed.

End Fmt.

(** ** net/textproto: a connection read and written line by line *)
Module Textproto.

(** [rd]: the lines the peer sends, in order, line ends removed; [rderr]: the
    error [ReadLine] returns once they are used up; [wr]: the lines written so
    far, in order, line ends left out; [closed]: whether [Close] was called. *)
Record Conn : Type := {
  rd : list string;
  rderr : error;
  wr : list string;
  closed : bool
}.

Definition NewConn (lines : list string) (e : error) : Conn :=
  {| rd := lines; rderr := e; wr := []; closed := false |}.

Definition PrintfLine (c : Conn) (line : string) : Conn :=
  {| rd := rd c; rderr := rderr c; wr := wr c ++ [line]; closed := closed c |}.

Definition ReadLine (c : Conn) : string * option error * Conn :=
  match rd c with
  | [] => (EmptyString, Some (rderr c), c)
  | l :: ls => (l, None, {| rd := ls; rderr := rderr c; wr := wr c; closed := closed c |})
  end.

Definition Close (c : Conn) : Conn :=
  {| rd := rd c; rderr := rderr c; wr := wr c; closed := true |}.

End Textproto.

(** ** starttls_imap.go, starttls_smtp.go: the STARTTLS preambles *)
Module StartTLS.
Import Textproto.

Definition imapBanner : string :=
  "* OK [CAPABILITY IMAP4rev1 STARTTLS LOGINDISABLED] IMAP4rev1 Service Ready".

(** [negotiateIMAPTLS] (starttls_imap.go). *)
Definition negotiateIMAPTLS (c : Conn) : option error * Conn :=
  let c := PrintfLine c imapBanner in
  let '(cmdString, err, c) := ReadLine c in
  match err with
  | None =>
    let '(tag, cmd, found) := Strings.Cut cmdString " " in
    if negb found then (Some (errorString ""), c)
    else if String.eqb cmd "STARTTLS" then
      (None, PrintfLine c (tag +:+ " OK Begin TLS negotiation now"))
    else
      (Some (errorString ("unsupported command " +:+ cmd +:+ " received")),
       PrintfLine c (tag +:+ " " +:+ cmd +:+ " Unsupported command"))
  | Some e => (Some e, c)
  end.

(** The [NegotiateFunc] of [negotiateIMAPStartTLS], on the connection's
    textproto view: the reported outcome and the connection afterwards. *)
Definition negotiateIMAPStartTLS (t : Conn) : bool * Conn :=
  let '(err, t) := negotiateIMAPTLS t in
  match err with
  | None => (true, t)
  | Some _ => (false, Close t)
  end.

(** [greetSMTP] (starttls_smtp.go). *)
Definition greetSMTP (c : Conn) (serverName : string) : string * option error * Conn :=
  let c := PrintfLine c ("220 " +:+ serverName +:+ " Service ready") in
  let '(l, e, c) := ReadLine c in
  match e with
  | Some e => (EmptyString, Some e, c)
  | None =>
    let '(_, e, clientName) := Fmt.Sscanf_EHLO l in
    match e with
    | Some e => (EmptyString, Some e, c)
    | None => (clientName, None, c)
    end
  end.

(** [greetSMTP] as the repository's other copy of the file has it: the
    count of scanned operands is checked too. *)
Definition greetSMTP_counted (c : Conn) (serverName : string) : string * option error * Conn :=
  let c := PrintfLine c ("220 " +:+ serverName +:+ " Service ready") in
  let '(l, e, c) := ReadLine c in
  match e with
  | Some e => (EmptyString, Some e, c)
  | None =>
    let '(n, e, clientName) := Fmt.Sscanf_EHLO l in
    match e with
    | Some e => (EmptyString, Some e, c)
    | None =>
      if negb (n =? 1) then
        (EmptyString, Some (errorString "could not read client name from EHLO"), c)
      else (clientName, None, c)
    end
  end.

(** [negotiateSMTPTLS]. *)
Definition negotiateSMTPTLS (c : Conn) (smtpServerName : string) : option error * Conn :=
  let c := PrintfLine c ("250-" +:+ smtpServerName +:+ " G'day!") in
  let c := PrintfLine c "250 STARTTLS" in
  let '(cmd, err, c) := ReadLine c in
  match err with
  | None =>
    if String.eqb cmd "STARTTLS" then (None, PrintfLine c "220 Go ahead")
    else (Some (errorString "expecting STARTTLS"), c)
  | Some e => (Some e, c)
  end.

(** The [NegotiateFunc] of [negotiateSMTPStartTLS serverName]. *)
Definition negotiateSMTPStartTLS (serverName : string) (t : Conn) : bool * Conn :=
  let '(_, err, t) := greetSMTP t serverName in
  match err with
  | None =>
    let '(err, t) := negotiateSMTPTLS t serverName in
    match err with
    | None => (true, t)
    | Some _ => (false, Close t)
    end
  | Some _ => (false, Close t)
  end.


(** *** The IMAP preamble *)

(** Runs the reads and writes of a negotiator on the connection record. *)
Ltac run_conn :=
  unfold negotiateIMAPStartTLS, negotiateIMAPTLS, greetSMTP, greetSMTP_counted,
    ReadLine, PrintfLine;
  cbn [rd wr rderr closed].

Fixpoint noSpace (s : string) : bool :=
  match s with
  | EmptyString => true
  | String c t => negb (Ascii.eqb c " "%char) && noSpace t
  end.

Lemma prefix_space (c : ascii) (t : string) :
  String.prefix " " (String c t) = Ascii.eqb c " "%char.
Proof.
  cbn [String.prefix]. destruct (ascii_dec " " c) as [<-|Hne].
  - destruct t; reflexivity.
  - symmetry. apply Ascii.eqb_neq. congruence.
Qed.

(** A line without a space is not cut. *)
Lemma Cut_noSpace (line : string) :
  noSpace line = true -> Strings.Cut line " " = (line, EmptyString, false).
Proof.
  induction line as [|c t IH]; intros H; [reflexivity|].
  simpl in H. apply andb_prop in H as [Hc Ht]. apply negb_true_iff in Hc.
  cbn [Strings.Cut]. rewrite prefix_space, Hc, (IH Ht). reflexivity.
Qed.

(** A line is cut at its first space. *)
Lemma Cut_first_space (tag cmd : string) :
  noSpace tag = true -> Strings.Cut (tag +:+ " " +:+ cmd) " " = (tag, cmd, true).
Proof.
  induction tag as [|c t IH]; intros H.
  - change (EmptyString +:+ " " +:+ cmd) with (String " "%char cmd).
    cbn [Strings.Cut]. rewrite prefix_space. reflexivity.
  - simpl in H. apply andb_prop in H as [Hc Ht]. apply negb_true_iff in Hc.
    change (String c t +:+ " " +:+ cmd) with (String c (t +:+ " " +:+ cmd)).
    cbn [Strings.Cut]. rewrite prefix_space, Hc, (IH Ht). reflexivity.
Qed.

(** Every line has one of the two forms. *)
Lemma noSpace_or_cut (line : string) :
  noSpace line = true
  \/ exists tag cmd, line = tag +:+ " " +:+ cmd /\ noSpace tag = true.
Proof.
  induction line as [|c t IH]; [now left|].
  destruct (Ascii.eqb c " "%char) eqn:E.
  - right. apply Ascii.eqb_eq in E. subst c. exists EmptyString, t. auto.
  - destruct IH as [H | (tag & cmd & -> & H)].
    + left. simpl. now rewrite E.
    + right. exists (String c tag), cmd. simpl. now rewrite E.
Qed.

(** The reply to [a1 LOGIN user pass]: the command is the whole of the line
    after its first space, and the line [a1 LOGIN Unsupported command] is
    not written. *)
Lemma imap_login_reply :
  negotiateIMAPStartTLS (NewConn ["a1 LOGIN user pass"] EOF)
  = (false, {| rd := []; rderr := EOF;
               wr := [imapBanner; "a1 LOGIN user pass Unsupported command"];
               closed := true |})
  /\ ~ In "a1 LOGIN Unsupported command"
         (wr (snd (negotiateIMAPStartTLS (NewConn ["a1 LOGIN user pass"] EOF)))).
Proof.
  split; [vm_compute; reflexivity|].
  vm_compute. intros [H | [H | []]]; discriminate.
Qed.

(** C4, as the code has it. The negotiator writes the capability banner and
    reads one line. A line without a space makes it report failure, with
    nothing more written. Otherwise the line is a tag, a space and a command
    (all that follows the first space): the command [STARTTLS] gets the reply
    [<tag> OK Begin TLS negotiation now] and success, any other command the
    reply [<tag> <command> Unsupported command] and failure. So [a1 STARTTLS]
    gets [a1 OK Begin TLS negotiation now], and [a1 LOGIN user pass] gets
    [a1 LOGIN user pass Unsupported command]. *)
Theorem negotiateIMAP_replies (c : Conn) (rest : list string) :
  (forall line,
      rd c = line :: rest -> noSpace line = true ->
      negotiateIMAPStartTLS c
      = (false, {| rd := rest; rderr := rderr c; wr := wr c ++ [imapBanner]; closed := true |}))
  /\ (forall tag,
        rd c = (tag +:+ " STARTTLS") :: rest -> noSpace tag = true ->
        negotiateIMAPStartTLS c
        = (true, {| rd := rest; rderr := rderr c;
                    wr := (wr c ++ [imapBanner]) ++ [tag +:+ " OK Begin TLS negotiation now"];
                    closed := closed c |}))
  /\ (forall tag cmd,
        rd c = (tag +:+ " " +:+ cmd) :: rest -> noSpace tag = true -> cmd <> "STARTTLS" ->
        negotiateIMAPStartTLS c
        = (false, {| rd := rest; rderr := rderr c;
                     wr := (wr c ++ [imapBanner])
                           ++ [tag +:+ " " +:+ cmd +:+ " Unsupported command"];
                     closed := true |}))
  /\ negotiateIMAPStartTLS (NewConn ["a1 STARTTLS"] EOF)
     = (true, {| rd := []; rderr := EOF;
                 wr := [imapBanner; "a1 OK Begin TLS negotiation now"];
                 closed := false |})
  /\ negotiateIMAPStartTLS (NewConn ["a1 LOGIN user pass"] EOF)
     = (false, {| rd := []; rderr := EOF;
                  wr := [imapBanner; "a1 LOGIN user pass Unsupported command"];
                  closed := true |}).
Proof.
  split; [|split; [|split; [|split]]]; try (vm_compute; reflexivity).
  - intros line Hrd Hns.
    run_conn. rewrite Hrd, (Cut_noSpace _ Hns). reflexivity.
  - intros tag Hrd Hns.
    change (tag +:+ " STARTTLS") with (tag +:+ " " +:+ "STARTTLS") in Hrd.
    run_conn. rewrite Hrd, (Cut_first_space tag "STARTTLS" Hns). reflexivity.
  - intros tag cmd Hrd Hns Hcmd.
    run_conn. rewrite Hrd, (Cut_first_space tag cmd Hns).
    cbn [negb]. apply String.eqb_neq in Hcmd. rewrite Hcmd. reflexivity.
Qed.

(** *** The SMTP greeting *)

(** The line [EHLO client1 extra] has two tokens after [EHLO], and
    [greetSMTP] accepts it with the first as the client name. *)
Lemma greetSMTP_accepts_two_tokens :
  Strings.Fields "EHLO client1 extra" = ["EHLO"; "client1"; "extra"]
  /\ greetSMTP (NewConn ["EHLO client1 extra"] EOF) "mail.example"
     = ("client1", None,
        {| rd := []; rderr := EOF; wr := ["220 mail.example Service ready"];
           closed := false |}).
Proof. split; vm_compute; reflexivity. Qed.

(** C5, as the code has it. [greetSMTP] writes the greeting and reads one
    line. It returns a client name exactly when the line is [EHLO], one or
    more spaces, and a word that ends the line or is followed by a space;
    the name is that word, whatever follows it. On every other line, a line
    with no word after [EHLO] among them, it fails with an error and an
    empty client name. *)
Theorem greetSMTP_first_word (c : Conn) (serverName line : string) (rest : list string) :
  rd c = line :: rest ->
  snd (greetSMTP c serverName)
  = {| rd := rest; rderr := rderr c;
       wr := wr c ++ ["220 " +:+ serverName +:+ " Service ready"];
       closed := closed c |}
  /\ (forall name,
        fst (greetSMTP c serverName) = (name, None)
        <-> exists tok, Fmt.accepted (Fmt.input line) tok /\ name = Fmt.bytesOf tok)
  /\ (forall name, fst (greetSMTP c serverName) = (name, None) -> name <> EmptyString)
  /\ ((forall tok, ~ Fmt.accepted (Fmt.input line) tok) ->
      exists e, fst (greetSMTP c serverName) = (EmptyString, Some e)).
Proof.
  intros Hrd.
  assert (Hg : greetSMTP c serverName
               = (let '(_, e, clientName) := Fmt.Sscanf_EHLO line in
                  match e with
                  | Some e => (EmptyString, Some e)
                  | None => (clientName, None)
                  end,
                  {| rd := rest; rderr := rderr c;
                     wr := wr c ++ ["220 " +:+ serverName +:+ " Service ready"];
                     closed := closed c |})).
  { run_conn. rewrite Hrd.
    destruct (Fmt.Sscanf_EHLO line) as [[n [e|]] name]; reflexivity. }
  rewrite Hg. simpl.
  assert (Hiff : forall name,
             (let '(_, e, clientName) := Fmt.Sscanf_EHLO line in
              match e with
              | Some e => (EmptyString, Some e)
              | None => (clientName, None)
              end) = (name, None)
             <-> exists tok, Fmt.accepted (Fmt.input line) tok /\ name = Fmt.bytesOf tok).
  { intros name. rewrite <- Fmt.Sscanf_EHLO_ok.
    destruct (Fmt.Sscanf_EHLO_cases line) as [[name' H] | [e H]]; rewrite H.
    - split; [intros [= ->]; reflexivity | intros [= ->]; reflexivity].
    - split; discriminate. }
  split; [reflexivity|]. split; [exact Hiff|]. split.
  - intros name H. apply Hiff in H as (tok & (sp & more & _ & _ & _ & Hne & _) & ->).
    now apply Fmt.bytesOf_nonempty.
  - intros Hnone.
    destruct (Fmt.Sscanf_EHLO_cases line) as [[name' H] | [e H]]; rewrite H.
    + exfalso. apply Fmt.Sscanf_EHLO_ok in H as (tok & Hacc & _). exact (Hnone tok Hacc).
    + eauto.
Qed.

(** The theorem at the line [EHLO client1 extra]. *)
Lemma greetSMTP_first_word_witness :
  rd (NewConn ["EHLO client1 extra"] EOF) = ["EHLO client1 extra"]
  /\ (snd (greetSMTP (NewConn ["EHLO client1 extra"] EOF) "mail.example")
      = {| rd := []; rderr := rderr (NewConn ["EHLO client1 extra"] EOF);
           wr := wr (NewConn ["EHLO client1 extra"] EOF)
                 ++ ["220 " +:+ "mail.example" +:+ " Service ready"];
           closed := closed (NewConn ["EHLO client1 extra"] EOF) |}
      /\ (forall name,
            fst (greetSMTP (NewConn ["EHLO client1 extra"] EOF) "mail.example") = (name, None)
            <-> exists tok,
                Fmt.accepted (Fmt.input "EHLO client1 extra") tok /\ name = Fmt.bytesOf tok)
      /\ (forall name,
            fst (greetSMTP (NewConn ["EHLO client1 extra"] EOF) "mail.example") = (name, None) ->
            name <> EmptyString)
      /\ ((forall tok, ~ Fmt.accepted (Fmt.input "EHLO client1 extra") tok) ->
          exists e,
            fst (greetSMTP (NewConn ["EHLO client1 extra"] EOF) "mail.example")
            = (EmptyString, Some e))).
Proof.
  split; [reflexivity|].
  exact (greetSMTP_first_word (NewConn ["EHLO client1 extra"] EOF) "mail.example"
           "EHLO client1 extra" [] eq_refl).
Defined.

(** X3. A line of ASCII bytes: [EHLO], blanks, a word, and then nothing or a
    space and anything. The word is the client name. *)
Lemma greetSMTP_ascii (c : Conn) (serverName sp tok more : string) (rest : list string) :
  rd c = ("EHLO" +:+ sp +:+ tok +:+ more) :: rest ->
  Fmt.asciiOnly sp = true -> sp <> EmptyString ->
  Forall (fun r => Fmt.blankRune r = true) (Fmt.chars sp) ->
  Fmt.asciiOnly tok = true -> tok <> EmptyString ->
  Forall (fun r => isSpace r = false) (Fmt.chars tok) ->
  more = EmptyString \/ (exists more', more = String " "%char more') ->
  Z.of_nat (4 + String.length sp + String.length tok) <= Fmt.hugeWid ->
  fst (greetSMTP c serverName) = (tok, None).
Proof.
  intros Hrd Hsp Hspne Hblank Htok Htokne Hword Hmore Hlen.
  run_conn. rewrite Hrd.
  rewrite (Fmt.Sscanf_EHLO_ascii sp tok more) by assumption. reflexivity.
Qed.

(** X4. The repository's other copy of [greetSMTP] checks the count of scanned
    operands too; the two agree, since the scan returns no error exactly when
    it scanned the one operand. *)
Lemma greetSMTP_counted_same (c : Conn) (serverName : string) :
  greetSMTP_counted c serverName = greetSMTP c serverName.
Proof.
  unfold greetSMTP_counted, greetSMTP.
  destruct (ReadLine _) as [[l [e|]] c']; [reflexivity|].
  destruct (Fmt.Sscanf_EHLO_cases l) as [[name H] | [e H]]; rewrite H; reflexivity.
Qed.

(** The spec's end-to-end runs of the SMTP preamble. *)
Example smtp_preamble :
  negotiateSMTPStartTLS "mail.example" (NewConn ["EHLO client1"; "STARTTLS"] EOF)
  = (true, {| rd := []; rderr := EOF;
              wr := ["220 mail.example Service ready"; "250-mail.example G'day!";
                     "250 STARTTLS"; "220 Go ahead"];
              closed := false |})
  /\ negotiateSMTPStartTLS "mail.example" (NewConn ["EHLO client1"; "NOOP"] EOF)
     = (false, {| rd := []; rderr := EOF;
                  wr := ["220 mail.example Service ready"; "250-mail.example G'day!";
                         "250 STARTTLS"];
                  closed := true |})
  /\ (exists e, fst (greetSMTP (NewConn ["EHLO"] EOF) "mail.example") = (EmptyString, Some e))
  /\ (exists e, fst (greetSMTP (NewConn ["HELO client1"] EOF) "mail.example")
                = (EmptyString, Some e)).
Proof. repeat split; try (vm_compute; reflexivity); eexists; vm_compute; reflexivity. Qed.

(** *** The negotiators end to end *)

(** X1. The IMAP negotiator reports success exactly when the line it reads is a
    tag without a space, one space and [STARTTLS], in this case and with
    nothing after it; it has then written the banner and
    [<tag> OK Begin TLS negotiation now] and left the connection open. On a
    line with a tag and another command it has written the banner and
    [<tag> <command> Unsupported command], the command being all that follows
    the first space; on a line without a space, and when no line can be read,
    the banner alone; in these three cases it has closed the connection. It
    always takes one line off the input. *)
Theorem negotiateIMAPStartTLS_ok_iff (c : Conn) :
  (fst (negotiateIMAPStartTLS c) = true
   <-> exists tag rest, rd c = (tag +:+ " " +:+ "STARTTLS") :: rest /\ noSpace tag = true)
  /\ (forall tag rest,
        rd c = (tag +:+ " " +:+ "STARTTLS") :: rest -> noSpace tag = true ->
        negotiateIMAPStartTLS c
        = (true, {| rd := rest; rderr := rderr c;
                    wr := wr c ++ [imapBanner; tag +:+ " OK Begin TLS negotiation now"];
                    closed := closed c |}))
  /\ (forall tag cmd rest,
        rd c = (tag +:+ " " +:+ cmd) :: rest -> noSpace tag = true -> cmd <> "STARTTLS" ->
        negotiateIMAPStartTLS c
        = (false, {| rd := rest; rderr := rderr c;
                     wr := wr c ++ [imapBanner;
                                    tag +:+ " " +:+ cmd +:+ " Unsupported command"];
                     closed := true |}))
  /\ (forall line rest,
        rd c = line :: rest -> noSpace line = true ->
        negotiateIMAPStartTLS c
        = (false, {| rd := rest; rderr := rderr c; wr := wr c ++ [imapBanner];
                     closed := true |}))
  /\ (rd c = [] ->
      negotiateIMAPStartTLS c
      = (false, {| rd := []; rderr := rderr c; wr := wr c ++ [imapBanner];
                   closed := true |}))
  /\ closed (snd (negotiateIMAPStartTLS c))
     = (if fst (negotiateIMAPStartTLS c) then closed c else true)
  /\ rd (snd (negotiateIMAPStartTLS c)) = tl (rd c).
Proof.
  assert (Hcut : forall tag cmd rest,
             rd c = (tag +:+ " " +:+ cmd) :: rest -> noSpace tag = true ->
             negotiateIMAPStartTLS c
             = if String.eqb cmd "STARTTLS" then
                 (true, {| rd := rest; rderr := rderr c;
                           wr := wr c ++ [imapBanner; tag +:+ " OK Begin TLS negotiation now"];
                           closed := closed c |})
               else
                 (false, {| rd := rest; rderr := rderr c;
                            wr := wr c ++ [imapBanner;
                                           tag +:+ " " +:+ cmd +:+ " Unsupported command"];
                            closed := true |})).
  { intros tag cmd rest Hrd Hns. run_conn. rewrite Hrd, (Cut_first_space tag cmd Hns).
    cbn [negb]. destruct (String.eqb cmd "STARTTLS"); cbn; now rewrite <- app_assoc. }
  assert (Hplain : forall line rest,
             rd c = line :: rest -> noSpace line = true ->
             negotiateIMAPStartTLS c
             = (false, {| rd := rest; rderr := rderr c; wr := wr c ++ [imapBanner];
                          closed := true |})).
  { intros line rest Hrd Hns. run_conn. rewrite Hrd, (Cut_noSpace _ Hns). reflexivity. }
  assert (Hnone : rd c = [] ->
                  negotiateIMAPStartTLS c
                  = (false, {| rd := []; rderr := rderr c; wr := wr c ++ [imapBanner];
                               closed := true |})).
  { intros Hrd. run_conn. rewrite Hrd. reflexivity. }
  split; [|split; [|split; [|split; [|split]]]].
  - split.
    + intros Hok. destruct (rd c) as [|line rest] eqn:Hrd.
      * rewrite Hnone in Hok by reflexivity. discriminate.
      * destruct (noSpace_or_cut line) as [Hns | (tag & cmd & -> & Hns)].
        -- rewrite (Hplain _ _ eq_refl Hns) in Hok. discriminate.
        -- rewrite (Hcut _ _ _ eq_refl Hns) in Hok.
           destruct (String.eqb cmd "STARTTLS") eqn:Ecmd; [|discriminate].
           apply String.eqb_eq in Ecmd. subst cmd. now exists tag, rest.
    + intros (tag & rest & Hrd & Hns). now rewrite (Hcut _ _ _ Hrd Hns).
  - intros tag rest Hrd Hns. now rewrite (Hcut _ _ _ Hrd Hns).
  - intros tag cmd rest Hrd Hns Hcmd. rewrite (Hcut _ _ _ Hrd Hns).
    apply String.eqb_neq in Hcmd. now rewrite Hcmd.
  - exact Hplain.
  - exact Hnone.
  - destruct (rd c) as [|line rest] eqn:Hrd.
    + rewrite Hnone by reflexivity. auto.
    + destruct (noSpace_or_cut line) as [Hns | (tag & cmd & -> & Hns)].
      * rewrite (Hplain _ _ eq_refl Hns). auto.
      * rewrite (Hcut _ _ _ eq_refl Hns).
        destruct (String.eqb cmd "STARTTLS"); auto.
Qed.

(** X2. The SMTP negotiator reports success exactly when the first line it reads
    is accepted as an [EHLO] line and the second is [STARTTLS] and nothing
    else; the client name plays no part. On success it has written the
    greeting, the two [250] lines and [220 Go ahead], and left the connection
    open. When the [EHLO] step fails (no line, or a line that is not
    accepted) it has written the greeting alone; when the [STARTTLS] step
    fails (no second line, or another one) the greeting and the two [250]
    lines; in both cases it has closed the connection. It takes off the input
    the lines it has read. *)
Theorem negotiateSMTPStartTLS_ok_iff (serverName : string) (c : Conn) :
  (fst (negotiateSMTPStartTLS serverName c) = true
   <-> exists l rest tok,
       rd c = l :: "STARTTLS" :: rest /\ Fmt.accepted (Fmt.input l) tok)
  /\ (forall l rest tok,
        rd c = l :: "STARTTLS" :: rest -> Fmt.accepted (Fmt.input l) tok ->
        negotiateSMTPStartTLS serverName c
        = (true, {| rd := rest; rderr := rderr c;
                    wr := wr c ++ ["220 " +:+ serverName +:+ " Service ready";
                                   "250-" +:+ serverName +:+ " G'day!";
                                   "250 STARTTLS";
                                   "220 Go ahead"];
                    closed := closed c |}))
  /\ (rd c = [] ->
      negotiateSMTPStartTLS serverName c
      = (false, {| rd := []; rderr := rderr c;
                   wr := wr c ++ ["220 " +:+ serverName +:+ " Service ready"];
                   closed := true |}))
  /\ (forall l rest,
        rd c = l :: rest -> (forall tok, ~ Fmt.accepted (Fmt.input l) tok) ->
        negotiateSMTPStartTLS serverName c
        = (false, {| rd := rest; rderr := rderr c;
                     wr := wr c ++ ["220 " +:+ serverName +:+ " Service ready"];
                     closed := true |}))
  /\ (forall l rest tok,
        rd c = l :: rest -> Fmt.accepted (Fmt.input l) tok ->
        hd_error rest <> Some "STARTTLS" ->
        negotiateSMTPStartTLS serverName c
        = (false, {| rd := tl rest; rderr := rderr c;
                     wr := wr c ++ ["220 " +:+ serverName +:+ " Service ready";
                                    "250-" +:+ serverName +:+ " G'day!";
                                    "250 STARTTLS"];
                     closed := true |})).
Proof.
  assert (Hgreeted : forall l rest tok,
             rd c = l :: rest -> Fmt.accepted (Fmt.input l) tok ->
             negotiateSMTPStartTLS serverName c
             = match rest with
               | l2 :: rest2 =>
                 if String.eqb l2 "STARTTLS" then
                   (true, {| rd := rest2; rderr := rderr c;
                             wr := wr c ++ ["220 " +:+ serverName +:+ " Service ready";
                                            "250-" +:+ serverName +:+ " G'day!";
                                            "250 STARTTLS";
                                            "220 Go ahead"];
                             closed := closed c |})
                 else
                   (false, {| rd := rest2; rderr := rderr c;
                              wr := wr c ++ ["220 " +:+ serverName +:+ " Service ready";
                                             "250-" +:+ serverName +:+ " G'day!";
                                             "250 STARTTLS"];
                              closed := true |})
               | [] =>
                 (false, {| rd := []; rderr := rderr c;
                            wr := wr c ++ ["220 " +:+ serverName +:+ " Service ready";
                                           "250-" +:+ serverName +:+ " G'day!";
                                           "250 STARTTLS"];
                            closed := true |})
               end).
  { intros l rest tok Hrd Hacc.
    assert (Hs : Fmt.Sscanf_EHLO l = (1, None, Fmt.bytesOf tok))
      by (apply Fmt.Sscanf_EHLO_ok; now exists tok).
    unfold negotiateSMTPStartTLS, negotiateSMTPTLS. run_conn. rewrite Hrd, Hs.
    cbn [rd wr rderr closed].
    destruct rest as [|l2 rest2].
    - cbn. now rewrite <- !app_assoc.
    - destruct (String.eqb l2 "STARTTLS"); cbn; now rewrite <- !app_assoc. }
  assert (Hrefused : forall l rest,
             rd c = l :: rest -> (forall tok, ~ Fmt.accepted (Fmt.input l) tok) ->
             negotiateSMTPStartTLS serverName c
             = (false, {| rd := rest; rderr := rderr c;
                          wr := wr c ++ ["220 " +:+ serverName +:+ " Service ready"];
                          closed := true |})).
  { intros l rest Hrd Hno.
    unfold negotiateSMTPStartTLS, negotiateSMTPTLS. run_conn. rewrite Hrd.
    destruct (Fmt.Sscanf_EHLO_cases l) as [[name Hs] | [e Hs]]; rewrite Hs.
    - exfalso. apply Fmt.Sscanf_EHLO_ok in Hs as (tok & Hacc & _). exact (Hno tok Hacc).
    - reflexivity. }
  assert (Hnone : rd c = [] ->
                  negotiateSMTPStartTLS serverName c
                  = (false, {| rd := []; rderr := rderr c;
                               wr := wr c ++ ["220 " +:+ serverName +:+ " Service ready"];
                               closed := true |})).
  { intros Hrd. unfold negotiateSMTPStartTLS, negotiateSMTPTLS. run_conn. rewrite Hrd.
    reflexivity. }
  split; [|split; [|split; [|split]]].
  - split.
    + intros Hok. destruct (rd c) as [|l rest] eqn:Hrd.
      * rewrite Hnone in Hok by reflexivity. discriminate.
      * destruct (Fmt.Sscanf_EHLO_cases l) as [[name Hs] | [e Hs]].
        -- apply Fmt.Sscanf_EHLO_ok in Hs as (tok & Hacc & _).
           rewrite (Hgreeted _ _ _ eq_refl Hacc) in Hok.
           destruct rest as [|l2 rest2]; [discriminate|].
           destruct (String.eqb l2 "STARTTLS") eqn:E2; [|discriminate].
           apply String.eqb_eq in E2. subst l2. now exists l, rest2, tok.
        -- rewrite (Hrefused _ _ eq_refl) in Hok; [discriminate|].
           intros tok Hacc.
           assert (Hs' : Fmt.Sscanf_EHLO l = (1, None, Fmt.bytesOf tok))
             by (apply Fmt.Sscanf_EHLO_ok; now exists tok).
           rewrite Hs' in Hs. discriminate.
    + intros (l & rest & tok & Hrd & Hacc). now rewrite (Hgreeted _ _ _ Hrd Hacc).
  - intros l rest tok Hrd Hacc. now rewrite (Hgreeted _ _ _ Hrd Hacc).
  - exact Hnone.
  - exact Hrefused.
  - intros l rest tok Hrd Hacc Hnot. rewrite (Hgreeted _ _ _ Hrd Hacc).
    destruct rest as [|l2 rest2]; [reflexivity|].
    destruct (String.eqb l2 "STARTTLS") eqn:E2; [|reflexivity].
    apply String.eqb_eq in E2. subst l2. now contradiction Hnot.
Qed.

(** The lemma [greetSMTP_ascii] at the line [EHLO a b]. *)
Lemma greetSMTP_ascii_witness :
  fst (greetSMTP (NewConn ["EHLO" +:+ " " +:+ "a" +:+ " b"] EOF) "mail.example")
  = ("a", None).
Proof.
  apply (greetSMTP_ascii (NewConn ["EHLO" +:+ " " +:+ "a" +:+ " b"] EOF)
           "mail.example" " " "a" " b" []).
  - reflexivity.
  - reflexivity.
  - discriminate.
  - repeat constructor.
  - reflexivity.
  - discriminate.
  - repeat constructor.
  - right. now exists "b".
  - vm_compute. discriminate.
Defined.

End StartTLS.

(** ** bufio: a buffered reader that can peek *)
Module Bufio.

(** A [bufio.Reader] over a source that delivers the bytes [src] and then
    reports [io.EOF]: [buf] holds the bytes read from the source and not yet
    consumed ([b.buf[b.r:b.w]]), [err] the pending read error ([b.err]) and
    [size] the buffer's capacity ([len(b.buf)]). A [Read] of the source
    delivers as many bytes as it has and the buffer has room for. *)
Record Reader : Type := {
  buf : list byte;
  src : list byte;
  err : option error;
  size : nat
}.

Definition NewReaderSize (rd : list byte) (size : nat) : Reader :=
  {| buf := []; src := rd; err := None; size := size |}.

(** The bytes a consumer has still to read: the read position is the start
    of this sequence. *)
Definition unread (b : Reader) : list byte := buf b ++ src b.

(** [b.fill()]: one read of the source into the free part of the buffer. *)
Definition fill (b : Reader) : Reader :=
  match src b with
  | [] => {| buf := buf b; src := []; err := Some EOF; size := size b |}
  | _ =>
    let k := (size b - length (buf b))%nat in
    {| buf := buf b ++ firstn k (src b); src := skipn k (src b);
       err := None; size := size b |}
  end.

(** [for b.w-b.r < n && b.w-b.r < len(b.buf) && b.err == nil { b.fill() }] *)
Definition wantsFill (n : nat) (b : Reader) : bool :=
  (length (buf b) <? n)%nat && (length (buf b) <? size b)%nat
  && match err b with None => true | Some _ => false end.

Fixpoint fillLoop (fuel : nat) (n : nat) (b : Reader) : Reader :=
  match fuel with
  | O => b
  | S fuel' => if wantsFill n b then fillLoop fuel' n (fill b) else b
  end.

(** [b.readErr()]: the pending error, which is cleared. *)
Definition readErr (b : Reader) : option error * Reader :=
  (err b, {| buf := buf b; src := src b; err := None; size := size b |}).

(** [b.Peek(n)] for a count [n] that is not negative: the next [n] bytes
    without advancing the reader; fewer, with an error, when the source ends
    before them or the buffer cannot hold them. *)
Definition Peek (n : nat) (b : Reader) : list byte * option error * Reader :=
  let b := fillLoop (S (S (length (src b)))) n b in
  if (size b <? n)%nat then (buf b, Some ErrBufferFull, b)
  else if (length (buf b) <? n)%nat then
    let '(e, b) := readErr b in
    (buf b, Some (match e with Some e => e | None => ErrBufferFull end), b)
  else (firstn n (buf b), None, b).

(** What a [bufio.Scanner] with the default split function and buffer yields
    over its whole run: the lines [Scan] delivered, in order, and [Err()]
    once [Scan] has returned false. *)
Record Scanned : Type := {
  lines : list string;
  scanErr : option error
}.

Definition MaxScanTokenSize : Z := 64 * 1024.

Definition dropCR (l : string) : string :=
  match get (String.length l - 1) l with
  | Some c => if Ascii.eqb c "013"%char then String.substring 0 (String.length l - 1) l else l
  | None => l
  end.

(** [ScanLines] over the source's bytes [data], which end with the read error
    [e] ([None] for [io.EOF]). [cur] is the line being read, in reverse. A
    line that does not fit the buffer with its end stops the scan with
    [ErrTooLong]; a last line without an end is delivered, whatever ended the
    source. *)
Fixpoint scanLines (data : string) (e : option error) (cur : string) : Scanned :=
  if MaxScanTokenSize <=? Z.of_nat (String.length cur) then
    {| lines := []; scanErr := Some ErrTooLong |}
  else
    match data with
    | EmptyString =>
      {| lines := match cur with EmptyString => [] | _ => [dropCR (String.rev cur)] end;
         scanErr := e |}
    | String c data' =>
      if Ascii.eqb c "010"%char then
        let s := scanLines data' e EmptyString in
        {| lines := dropCR (String.rev cur) :: lines s; scanErr := scanErr s |}
      else scanLines data' e (String c cur)
    end.

Definition NewScanner (data : string) (e : option error) : Scanned :=
  scanLines data e EmptyString.

(** *** The reader's invariant and what [Peek] returns *)

(** The only error the source reports is [io.EOF], and it reports it once its
    bytes are used up. *)
Definition wf (b : Reader) : Prop :=
  err b = None \/ (err b = Some EOF /\ src b = []).

(** [Peek n]'s answer as a function of the unread bytes [data] and the
    capacity [sz]. *)
Definition peeked (n : nat) (data : list byte) (sz : nat) : list byte + error :=
  if (sz <? n)%nat then inr ErrBufferFull
  else if (length data <? n)%nat then inr EOF
  else inl (firstn n data).

Lemma NewReaderSize_wf (rd : list byte) (sz : nat) : wf (NewReaderSize rd sz).
Proof. left; reflexivity. Qed.

Lemma fill_unread (b : Reader) : unread (fill b) = unread b.
Proof.
  unfold fill, unread. destruct (src b) as [|x l] eqn:E; simpl.
  - reflexivity.
  - rewrite <- app_assoc. f_equal. apply firstn_skipn.
Qed.

Lemma fill_size (b : Reader) : size (fill b) = size b.
Proof. unfold fill. destruct (src b); reflexivity. Qed.

Lemma fill_wf (b : Reader) : wf (fill b).
Proof.
  unfold fill, wf. destruct (src b); simpl; [right | left]; auto.
Qed.

Lemma fillLoop_unread (fuel n : nat) (b : Reader) : unread (fillLoop fuel n b) = unread b.
Proof.
  revert b. induction fuel as [|fuel IH]; intros b; simpl; [reflexivity|].
  destruct (wantsFill n b); [|reflexivity].
  rewrite IH. apply fill_unread.
Qed.

Lemma fillLoop_size (fuel n : nat) (b : Reader) : size (fillLoop fuel n b) = size b.
Proof.
  revert b. induction fuel as [|fuel IH]; intros b; simpl; [reflexivity|].
  destruct (wantsFill n b); [|reflexivity].
  rewrite IH. apply fill_size.
Qed.

Lemma fillLoop_wf (fuel n : nat) (b : Reader) : wf b -> wf (fillLoop fuel n b).
Proof.
  revert b. induction fuel as [|fuel IH]; intros b Hb; simpl; [assumption|].
  destruct (wantsFill n b); [|assumption].
  apply IH, fill_wf.
Qed.

Lemma fillLoop_stable (fuel n : nat) (b : Reader) :
  wantsFill n b = false -> fillLoop fuel n b = b.
Proof. destruct fuel; simpl; intros H; [reflexivity | now rewrite H]. Qed.

(** After one fill the buffer is full or the source is used up; after the
    next the end of the source is known. *)
Lemma fill_twice (n : nat) (b : Reader) :
  wantsFill n b = true -> wantsFill n (fill b) = true ->
  wantsFill n (fill (fill b)) = false.
Proof.
  unfold wantsFill, fill.
  destruct (src b) as [|x l] eqn:E; simpl.
  - intros _ H. rewrite andb_false_r in H. discriminate.
  - intros H1 H2.
    destruct (skipn (size b - length (buf b)) (x :: l)) as [|y l'] eqn:Es; simpl.
    + apply andb_false_r.
    + exfalso.
      apply andb_prop in H2 as [H2 _]. apply andb_prop in H2 as [_ H2].
      apply Nat.ltb_lt in H2.
      rewrite length_app, length_firstn in H2.
      assert (Hl : (length (skipn (size b - length (buf b)) (x :: l)) > 0)%nat)
        by (rewrite Es; simpl; lia).
      rewrite length_skipn in Hl. lia.
Qed.

Lemma fillLoop_done (fuel n : nat) (b : Reader) :
  wantsFill n (fillLoop (S (S fuel)) n b) = false.
Proof.
  simpl. destruct (wantsFill n b) eqn:H1; [|assumption].
  destruct (wantsFill n (fill b)) eqn:H2; [|assumption].
  rewrite fillLoop_stable; apply fill_twice; assumption.
Qed.

(** [Peek] leaves the unread bytes and the capacity as they were, keeps the
    invariant, and answers as [peeked] says. *)
Lemma Peek_spec (n : nat) (b : Reader) (bs : list byte) (e : option error) (b' : Reader) :
  wf b -> Peek n b = (bs, e, b') ->
  wf b' /\ unread b' = unread b /\ size b' = size b /\
  match peeked n (unread b) (size b) with
  | inl want => e = None /\ bs = want
  | inr e0 => e = Some e0
  end.
Proof.
  intros Hwf. unfold Peek, peeked.
  set (fuel := length (src b)).
  pose proof (fillLoop_done fuel n b) as Hdone.
  pose proof (fillLoop_unread (S (S fuel)) n b) as Hun.
  pose proof (fillLoop_size (S (S fuel)) n b) as Hsz.
  pose proof (fillLoop_wf (S (S fuel)) n b Hwf) as Hwf'.
  set (b1 := fillLoop (S (S fuel)) n b) in *.
  rewrite Hsz, <- Hun.
  destruct (size b <? n)%nat eqn:Hfull.
  - intros H; inversion H; subst. auto.
  - apply Nat.ltb_ge in Hfull.
    destruct (length (buf b1) <? n)%nat eqn:Hshort.
    + apply Nat.ltb_lt in Hshort.
      unfold readErr. intros H; inversion H; subst; clear H.
      assert (Herr : err b1 = Some EOF /\ src b1 = []).
      { unfold wantsFill in Hdone.
        destruct Hwf' as [Hnone | Hsome]; [|assumption].
        rewrite Hnone in Hdone. rewrite andb_true_r in Hdone.
        apply andb_false_iff in Hdone as [Hd | Hd]; apply Nat.ltb_ge in Hd; lia. }
      destruct Herr as [He Hs].
      split; [left; reflexivity|].
      split; [reflexivity|].
      split; [exact Hsz|].
      * unfold unread. rewrite Hs, app_nil_r.
        assert (Hlt : (length (buf b1) <? n)%nat = true) by (apply Nat.ltb_lt; assumption).
        rewrite Hlt, He. reflexivity.
    + apply Nat.ltb_ge in Hshort.
      intros H; inversion H; subst; clear H.
      split; [assumption|].
      split; [reflexivity|].
      split; [exact Hsz|].
      * unfold unread.
        assert (Hge : (length (buf b1 ++ src b1) <? n)%nat = false)
          by (apply Nat.ltb_ge; rewrite length_app; lia).
        rewrite Hge. split; [reflexivity|].
        rewrite firstn_app.
        replace (n - length (buf b1))%nat with 0%nat by lia.
        simpl. now rewrite app_nil_r.
Qed.

(** A successful [Peek n] returns [n] bytes. *)
Lemma Peek_length (n : nat) (b : Reader) (bs : list byte) (b' : Reader) :
  Peek n b = (bs, None, b') -> length bs = n.
Proof.
  unfold Peek.
  set (b1 := fillLoop _ n b).
  destruct (size b1 <? n)%nat; [discriminate|].
  destruct (length (buf b1) <? n)%nat eqn:H; [discriminate|].
  intros E; inversion E; subst. apply Nat.ltb_ge in H.
  rewrite length_firstn. lia.
Qed.

End Bufio.

(** ** sni.go: sniffing the server name, ACME probing, SNI routes *)
Module Sni.
Import Bufio.

(** [tls.ClientHelloInfo], the field the proxy reads. *)
Record ClientHelloInfo : Type := { ServerName : string }.

Definition recordHeaderLen : nat := 5.
Definition recordTypeHandshake : byte := Byte.x16.

(** [s[i]] on a byte slice known to be long enough. *)
Definition at_ (s : list byte) (i : nat) : byte := nth i s Byte.x00.

Definition int (b : byte) : Z := Z.of_N (Byte.to_N b).

(** A route's identity, [uuid.UUID]: sixteen bytes, here a number. *)
Definition UUID : Type := N.

Section Routing.

(** crypto/tls as the sniffer uses it: [tls.Server(conn, cfg).Handshake()]
    over a connection that can only read the given bytes. [clientHello bs] is
    the hello the handshake passes to [GetConfigForClient] when it gets that
    far, [None] when it fails before. *)
Variable clientHello : list byte -> option ClientHelloInfo.

(** [Target], an interface of the package. *)
Variable Target : Type.

(** crypto/tls and crypto/x509 as the ACME probe uses them.
    [Handshake dest sni]: the outcome of [client.Handshake()] for a client
    with [ServerName: sni] on a pipe whose other end [dest.HandleConn]
    serves: the error (the pipe's deadline passing is one), or
    [ConnectionState().PeerCertificates].
    [VerifyHostname c sni]: [c.VerifyHostname(sni)]. *)
Variable Cert : Type.
Variable Handshake : Target -> string -> error + list Cert.
Variable VerifyHostname : Cert -> string -> option error.

(** [ReadClientHelloInfo]. *)
Definition ReadClientHelloInfo (br : Reader) : (ClientHelloInfo + error) * Reader :=
  let '(hdr, err, br) := Peek recordHeaderLen br in
  match err with
  | Some e => (inr e, br)
  | None =>
    if negb (Byte.eqb (at_ hdr 0) recordTypeHandshake) then
      (inr (errorString "not tls"), br)
    else
      let recLen := Z.lor (Z.shiftl (int (at_ hdr 3)) 8) (int (at_ hdr 4)) in
      let '(helloBytes, err, br) := Peek (recordHeaderLen + Z.to_nat recLen) br in
      match err with
      | Some e => (inr e, br)
      | None =>
        let helloInfo := {| ServerName := EmptyString |} in
        let helloInfo :=
          match clientHello helloBytes with
          | Some hello => hello
          | None => helloInfo
          end in
        (inl helloInfo, br)
      end
  end.

(** [clientHelloServerName]. *)
Definition clientHelloServerName (br : Reader) : string * Reader :=
  let '(hello, br) := ReadClientHelloInfo br in
  match hello with
  | inr _ => (EmptyString, br)
  | inl hello => (ServerName hello, br)
  end.

(** The value [tryACME] sends: [ret] when the function returns. *)
Definition acmeProbe (dest : Target) (sni : string) : option Target :=
  match Handshake dest sni with
  | inl _ => None
  | inr certs =>
    match certs with
    | [] => None
    | c :: _ =>
      match VerifyHostname c sni with
      | Some _ => None
      | None => Some dest
      end
    end
  end.

(** [tryACME]: the channel [ch], as the values sent on it in order, after the
    call. *)
Definition tryACME (ch : list (option Target)) (dest : Target) (sni : string)
  : list (option Target) :=
  ch ++ [acmeProbe dest sni].

(** [for range m.cfg.acmeTargets { if target := <-ch; target != nil { return
    target, sni } }; return nil, ""]: [n] iterations left, [ch] the values
    that will arrive. [None] when the loop would wait for a value that never
    comes. *)
Fixpoint receive (n : nat) (ch : list (option Target)) (sni : string)
  : option (option Target * string) :=
  match n with
  | O => Some (None, EmptyString)
  | S n' =>
    match ch with
    | [] => None
    | Some target :: _ => Some (Some target, sni)
    | None :: ch' => receive n' ch' sni
    end
  end.

(** [acmeMatch.match] for a listener whose ACME-eligible targets are
    [acmeTargets]. The probes run concurrently, one goroutine each, on a
    channel with room for every result; [order] lists the targets in the
    order in which their probes send their result. *)
Definition acmeMatch_match (acmeTargets order : list Target) (br : Reader)
  : option (option Target * string) * Reader :=
  let '(sni, br) := clientHelloServerName br in
  if negb (Strings.HasSuffix sni ".acme.invalid") then (Some (None, EmptyString), br)
  else
    let ch := fold_left (fun ch target => tryACME ch target sni) order [] in
    (receive (length acmeTargets) ch sni, br).

(** The function types of the package. *)
Definition Matcher : Type := string -> bool.
Definition SNITargetFunc : Type := string -> Target * bool.
Definition DynamicTarget : Type := string -> Target * option error.
Definition NegotiateFunc : Type := Textproto.Conn -> bool * Textproto.Conn.

(** The matchers of sni.go. [acmeMatch] holds a pointer to its listener's
    config: here the listener's address, under which the proxy keeps it. *)
Inductive matcher : Type :=
| acmeMatch (cfg : string)
| sniMatch (m : option Matcher) (target : option Target) (targetFunc : option SNITargetFunc)
| dynamicSNIMatch (dynMatcher : option DynamicTarget).

Definition isACME (m : matcher) : bool :=
  match m with
  | acmeMatch _ => true
  | _ => false
  end.

(** Modelled from the spec: the route table's entries and the listener's
    config are declared elsewhere in the package. "Route: identity (opaque
    unique id), a matcher"; "ListenerRouteTable: ordered sequence of Route
    (insertion order = priority, never reordered); set of ACME-eligible
    backend targets (append-only); boolean ACME search disabled; optional
    pre-sniff negotiation hook". *)
Record route : Type := { id : UUID; match_ : matcher }.

Record config : Type := {
  routes : list route;
  acmeTargets : list Target;
  stopACME : bool;
  negotiateFunc : option NegotiateFunc
}.

Record Proxy : Type := { configs : gmap string config }.

Definition emptyConfig : config :=
  {| routes := []; acmeTargets := []; stopACME := false; negotiateFunc := None |}.

(** Modelled from the spec: [configFor] is defined elsewhere in the package.
    "Listener Route Table (config): per listening address"; the listener's
    config, a fresh one when the address has none yet. *)
Definition configFor (p : Proxy) (ipPort : string) : config :=
  match configs p !! ipPort with
  | Some cfg => cfg
  | None => emptyConfig
  end.

(** A write through the pointer [configFor] returns. *)
Definition store (p : Proxy) (ipPort : string) (cfg : config) : Proxy :=
  {| configs := <[ipPort := cfg]> (configs p) |}.

(** Modelled from the spec: [addRouteWithId] is defined elsewhere in the
    package. It appends a route with the given id to the listener's rules
    ("insertion order = priority, never reordered"; "evaluation order is
    strict registration order"). *)
Definition addRouteWithId (p : Proxy) (ipPort : string) (m : matcher) (routeId : UUID) : Proxy :=
  let cfg := configFor p ipPort in
  store p ipPort
    {| routes := routes cfg ++ [{| id := routeId; match_ := m |}];
       acmeTargets := acmeTargets cfg;
       stopACME := stopACME cfg;
       negotiateFunc := negotiateFunc cfg |}.

(** Modelled from the spec: [addRoute] is defined elsewhere in the package.
    It registers the route under a new id ("identity (opaque unique id)"),
    [fresh] being what [uuid.New()] returns, and returns the id. *)
Definition addRoute (fresh : UUID) (p : Proxy) (ipPort : string) (m : matcher) : Proxy * UUID :=
  (addRouteWithId p ipPort m fresh, fresh).

(** Modelled from the spec: [equals] is defined elsewhere in the package.
    "Static equality: matches iff sniffed hostname equals a fixed string". *)
Definition equals (want : string) : Matcher := fun got => String.eqb want got.

(** [AddSNIMatchRoute]; [fresh] is what [uuid.New()] returns. *)
Definition AddSNIMatchRoute (fresh : UUID) (p : Proxy) (ipPort : string)
    (m : Matcher) (dest : Target) : Proxy * UUID :=
  let routeId := fresh in
  let cfg := configFor p ipPort in
  let p :=
    if negb (stopACME cfg) then
      let p :=
        if (length (acmeTargets cfg) =? 0)%nat
        then addRouteWithId p ipPort (acmeMatch ipPort) routeId
        else p in
      let cfg := configFor p ipPort in
      store p ipPort
        {| routes := routes cfg;
           acmeTargets := acmeTargets cfg ++ [dest];
           stopACME := stopACME cfg;
           negotiateFunc := negotiateFunc cfg |}
    else p in
  let p := addRouteWithId p ipPort (sniMatch (Some m) (Some dest) None) routeId in
  (p, routeId).

(** [AddSNIRoute]. *)
Definition AddSNIRoute (fresh : UUID) (p : Proxy) (ipPort sni : string) (dest : Target)
  : Proxy * UUID :=
  AddSNIMatchRoute fresh p ipPort (equals sni) dest.

(** [AddSNIDynamicRoute]. *)
Definition AddSNIDynamicRoute (fresh : UUID) (p : Proxy) (ipPort : string)
    (targetLookup : option DynamicTarget) : Proxy * UUID :=
  addRoute fresh p ipPort (dynamicSNIMatch targetLookup).

(** [AddSNIDynamicSMTPRoute]. *)
Definition AddSNIDynamicSMTPRoute (fresh : UUID) (p : Proxy) (ipPort serverName : string)
    (targetLookup : option DynamicTarget) : Proxy * UUID :=
  let cfg := configFor p ipPort in
  let p := store p ipPort
    {| routes := routes cfg;
       acmeTargets := acmeTargets cfg;
       stopACME := stopACME cfg;
       negotiateFunc := Some (StartTLS.negotiateSMTPStartTLS serverName) |} in
  addRoute fresh p ipPort (dynamicSNIMatch targetLookup).

(** [AddSNIRouteFunc]. *)
Definition AddSNIRouteFunc (fresh : UUID) (p : Proxy) (ipPort : string)
    (fn : option SNITargetFunc) : Proxy * UUID :=
  addRoute fresh p ipPort (sniMatch None None fn).

(** [AddStopACMESearch]. *)
Definition AddStopACMESearch (p : Proxy) (ipPort : string) : Proxy :=
  let cfg := configFor p ipPort in
  store p ipPort
    {| routes := routes cfg;
       acmeTargets := acmeTargets cfg;
       stopACME := true;
       negotiateFunc := negotiateFunc cfg |}.

(** A setup phase: the calls made on a proxy, each with the id [uuid.New()]
    returned during it. *)
Inductive call : Type :=
| CallAddSNIRoute (fresh : UUID) (ipPort sni : string) (dest : Target)
| CallAddSNIMatchRoute (fresh : UUID) (ipPort : string) (m : Matcher) (dest : Target)
| CallAddSNIDynamicRoute (fresh : UUID) (ipPort : string) (targetLookup : option DynamicTarget)
| CallAddSNIDynamicSMTPRoute (fresh : UUID) (ipPort serverName : string)
    (targetLookup : option DynamicTarget)
| CallAddSNIRouteFunc (fresh : UUID) (ipPort : string) (fn : option SNITargetFunc)
| CallAddStopACMESearch (ipPort : string).

Definition perform (c : call) (p : Proxy) : Proxy :=
  match c with
  | CallAddSNIRoute fresh ipPort sni dest => fst (AddSNIRoute fresh p ipPort sni dest)
  | CallAddSNIMatchRoute fresh ipPort m dest => fst (AddSNIMatchRoute fresh p ipPort m dest)
  | CallAddSNIDynamicRoute fresh ipPort t => fst (AddSNIDynamicRoute fresh p ipPort t)
  | CallAddSNIDynamicSMTPRoute fresh ipPort s t => fst (AddSNIDynamicSMTPRoute fresh p ipPort s t)
  | CallAddSNIRouteFunc fresh ipPort fn => fst (AddSNIRouteFunc fresh p ipPort fn)
  | CallAddStopACMESearch ipPort => AddStopACMESearch p ipPort
  end.

Fixpoint setup (cs : list call) (p : Proxy) : Proxy :=
  match cs with
  | [] => p
  | c :: cs' => setup cs' (perform c p)
  end.



Definition newProxy : Proxy := {| configs := ∅ |}.

(** What a setup phase can build. *)
Definition reachable (p : Proxy) : Prop := exists cs, p = setup cs newProxy.

Definition countACME (rs : list route) : nat :=
  length (List.filter (fun r => isACME (match_ r)) rs).



(** *** The ACME probe *)

(** C1. An ACME probe of [dest] for the challenge hostname [sni] sends one
    value, and that value is [dest] exactly when the handshake succeeds, the
    peer's chain is not empty and its first certificate verifies for [sni];
    a handshake error, an empty chain and a failed verification of the first
    certificate each make it nil, and nothing else does. *)
Theorem tryACME_yields_iff (ch : list (option Target)) (dest : Target) (sni : string) :
  tryACME ch dest sni = ch ++ [acmeProbe dest sni]
  /\ (acmeProbe dest sni = Some dest <->
      exists c rest, Handshake dest sni = inr (c :: rest) /\ VerifyHostname c sni = None)
  /\ (acmeProbe dest sni = None <->
      (exists e, Handshake dest sni = inl e)
      \/ Handshake dest sni = inr []
      \/ (exists c rest e,
            Handshake dest sni = inr (c :: rest) /\ VerifyHostname c sni = Some e)).
Proof.
  split; [reflexivity|].
  unfold acmeProbe.
  destruct (Handshake dest sni) as [e | [|c rest]] eqn:Hh.
  - split; split.
    + discriminate.
    + intros (c & rest & H & _). discriminate.
    + intros _. left. now exists e.
    + reflexivity.
  - split; split.
    + discriminate.
    + intros (c & rest & H & _). discriminate.
    + intros _. right; left. reflexivity.
    + reflexivity.
  - destruct (VerifyHostname c sni) as [e|] eqn:Hv; split; split.
    + discriminate.
    + intros (c' & rest' & H & Hv'). inversion H; subst. congruence.
    + intros _. right; right. now exists c, rest, e.
    + reflexivity.
    + intros _. now exists c, rest.
    + reflexivity.
    + discriminate.
    + intros [(e & H) | [H | (c' & rest' & e & H & Hv')]]; try discriminate.
      inversion H; subst. congruence.
Qed.

(** *** Sniffing *)

(** The sniff as a function of the unread bytes [data] and the reader's
    capacity [sz]. *)
Definition sniffed (data : list byte) (sz : nat) : ClientHelloInfo + error :=
  match peeked recordHeaderLen data sz with
  | inr e => inr e
  | inl hdr =>
    if negb (Byte.eqb (at_ hdr 0) recordTypeHandshake) then inr (errorString "not tls")
    else
      let recLen := Z.lor (Z.shiftl (int (at_ hdr 3)) 8) (int (at_ hdr 4)) in
      match peeked (recordHeaderLen + Z.to_nat recLen) data sz with
      | inr e => inr e
      | inl helloBytes =>
        inl (match clientHello helloBytes with
             | Some hello => hello
             | None => {| ServerName := EmptyString |}
             end)
      end
  end.

Lemma ReadClientHelloInfo_sniffed (br : Reader) :
  wf br ->
  fst (ReadClientHelloInfo br) = sniffed (unread br) (size br)
  /\ wf (snd (ReadClientHelloInfo br))
  /\ unread (snd (ReadClientHelloInfo br)) = unread br
  /\ size (snd (ReadClientHelloInfo br)) = size br.
Proof.
  intros Hwf. unfold ReadClientHelloInfo, sniffed.
  destruct (Peek recordHeaderLen br) as [[hdr e1] br1] eqn:P1.
  destruct (Peek_spec _ _ _ _ _ Hwf P1) as (Hwf1 & Hun1 & Hsz1 & Hres1).
  destruct (peeked recordHeaderLen (unread br) (size br)) as [want1 | e0].
  - destruct Hres1 as [-> ->].
    cbv zeta.
    destruct (negb (Byte.eqb (at_ want1 0) recordTypeHandshake)); [simpl; auto|].
    set (n := (recordHeaderLen + Z.to_nat (Z.lor (Z.shiftl (int (at_ want1 3)) 8) (int (at_ want1 4))))%nat).
    destruct (Peek n br1) as [[helloBytes e2] br2] eqn:P2.
    destruct (Peek_spec _ _ _ _ _ Hwf1 P2) as (Hwf2 & Hun2 & Hsz2 & Hres2).
    rewrite Hun1, Hsz1 in Hres2.
    destruct (peeked n (unread br) (size br)) as [want2 | e0].
    + destruct Hres2 as [-> ->]. simpl.
      repeat split; try assumption; congruence.
    + subst e2. simpl. repeat split; try assumption; congruence.
  - subst e1. simpl. auto.
Qed.

(** C2. [clientHelloServerName] returns a string for every reader, whatever
    its source holds: the empty string when peeking the five header bytes
    fails, when the first of them is not 0x16, and when peeking the header
    and the declared record length fails; otherwise the server name of the
    parsed hello, which is the empty string when the parser exported none. *)
Theorem clientHelloServerName_total (br : Reader) :
  exists sni br',
    clientHelloServerName br = (sni, br')
    /\ forall hdr e1 br1,
        Peek recordHeaderLen br = (hdr, e1, br1) ->
        match e1 with
        | Some _ => sni = EmptyString
        | None =>
          length hdr = 5%nat
          /\ if Byte.eqb (at_ hdr 0) Byte.x16 then
               forall helloBytes e2 br2,
                 Peek (5 + Z.to_nat (Z.lor (Z.shiftl (int (at_ hdr 3)) 8) (int (at_ hdr 4)))) br1
                 = (helloBytes, e2, br2) ->
                 match e2 with
                 | Some _ => sni = EmptyString
                 | None =>
                   sni = match clientHello helloBytes with
                         | Some hello => ServerName hello
                         | None => EmptyString
                         end
                 end
             else sni = EmptyString
        end.
Proof.
  destruct (clientHelloServerName br) as [sni br'] eqn:E.
  exists sni, br'. split; [reflexivity|].
  intros hdr e1 br1 P1.
  unfold clientHelloServerName, ReadClientHelloInfo in E.
  rewrite P1 in E.
  destruct e1 as [e|].
  - inversion E; reflexivity.
  - split; [exact (Peek_length _ _ _ _ P1)|].
    unfold recordTypeHandshake in E.
    destruct (Byte.eqb (at_ hdr 0) Byte.x16); cbn [negb] in E.
    + intros helloBytes e2 br2 P2.
      unfold recordHeaderLen in E. cbv zeta in E. rewrite P2 in E.
      destruct e2 as [e|].
      * inversion E; reflexivity.
      * destruct (clientHello helloBytes); inversion E; reflexivity.
    + inversion E; reflexivity.
Qed.

(** C3. Sniffing only peeks: after a sniff the bytes still to be read are
    the ones that were to be read before it, and a second sniff right after
    the first gives the same hello or error, hence the same server name. *)
Theorem sniff_twice_same (br : Reader) :
  wf br ->
  forall r1 br1 r2 br2,
    ReadClientHelloInfo br = (r1, br1) ->
    ReadClientHelloInfo br1 = (r2, br2) ->
    unread br1 = unread br
    /\ unread br2 = unread br
    /\ r2 = r1
    /\ fst (clientHelloServerName br1) = fst (clientHelloServerName br).
Proof.
  intros Hwf r1 br1 r2 br2 E1 E2.
  destruct (ReadClientHelloInfo_sniffed br Hwf) as (Hr1 & Hwf1 & Hun1 & Hsz1).
  rewrite E1 in Hr1, Hwf1, Hun1, Hsz1. simpl in *.
  destruct (ReadClientHelloInfo_sniffed br1 Hwf1) as (Hr2 & Hwf2 & Hun2 & Hsz2).
  rewrite E2 in Hr2, Hwf2, Hun2, Hsz2. simpl in *.
  assert (Hsame : r2 = r1) by (rewrite Hr1, Hr2, Hun1, Hsz1; reflexivity).
  repeat split; try congruence.
  unfold clientHelloServerName. rewrite E1, E2, Hsame.
  destruct r1; reflexivity.
Qed.

(** *** The ACME matcher *)

Lemma tryACME_fold (sni : string) (order : list Target) (ch : list (option Target)) :
  fold_left (fun ch target => tryACME ch target sni) order ch
  = ch ++ map (fun target => acmeProbe target sni) order.
Proof.
  revert ch. induction order as [|t order IH]; intros ch; simpl.
  - now rewrite app_nil_r.
  - rewrite IH. unfold tryACME. now rewrite <- app_assoc.
Qed.

Lemma receive_all_nil (sni : string) (ch : list (option Target)) :
  Forall (fun v => v = None) ch ->
  receive (length ch) ch sni = Some (None, EmptyString).
Proof.
  induction 1 as [|v ch Hv _ IH]; simpl; [reflexivity|].
  subst v. exact IH.
Qed.

(** A probe that says yes makes the matcher return a target that passed its
    probe, whatever the order of arrival. *)
Lemma receive_some (sni : string) (ch : list (option Target)) :
  Exists (fun v => v <> None) ch ->
  exists target, In (Some target) ch /\ receive (length ch) ch sni = Some (Some target, sni).
Proof.
  induction 1 as [v ch Hv | v ch _ IH]; simpl.
  - destruct v as [t|]; [|congruence]. exists t. auto.
  - destruct v as [t|].
    + exists t. auto.
    + destruct IH as (t & Hin & Hr). exists t. auto.
Qed.

(** C6. The ACME matcher returns the non-match (nil target, empty hostname),
    and does return, whenever the sniffed hostname does not end with
    [.acme.invalid], whenever the listener has no ACME-eligible target, and
    whenever every probe says no, in whatever order the probes finish. *)
Theorem acmeMatch_no_match (acmeTargets order : list Target) (br : Reader) :
  Permutation order acmeTargets ->
  Strings.HasSuffix (fst (clientHelloServerName br)) ".acme.invalid" = false
  \/ acmeTargets = []
  \/ (forall target, In target acmeTargets ->
        acmeProbe target (fst (clientHelloServerName br)) = None) ->
  fst (acmeMatch_match acmeTargets order br) = Some (None, EmptyString).
Proof.
  intros Hperm Hcase. unfold acmeMatch_match.
  destruct (clientHelloServerName br) as [sni br'] eqn:E. simpl in Hcase.
  destruct (Strings.HasSuffix sni ".acme.invalid") eqn:Hsuf; simpl; [|reflexivity].
  destruct Hcase as [H | Hcase]; [discriminate|].
  rewrite tryACME_fold. simpl.
  rewrite <- (Permutation_length Hperm).
  rewrite <- (length_map (fun target => acmeProbe target sni) order).
  apply receive_all_nil.
  apply List.Forall_forall. intros v Hv.
  apply in_map_iff in Hv as (t & <- & Ht).
  destruct Hcase as [Hnil | Hno].
  - subst acmeTargets. symmetry in Hperm. apply Permutation_nil in Hperm. subst order. destruct Ht.
  - apply Hno. eapply Permutation_in; eassumption.
Qed.

(** With a probe that says yes, the matcher returns a target whose probe said
    yes, together with the sniffed hostname. *)
Lemma acmeMatch_match_found (acmeTargets order : list Target) (br : Reader) (winner : Target) :
  Permutation order acmeTargets ->
  Strings.HasSuffix (fst (clientHelloServerName br)) ".acme.invalid" = true ->
  In winner acmeTargets ->
  acmeProbe winner (fst (clientHelloServerName br)) = Some winner ->
  exists target,
    In target acmeTargets
    /\ acmeProbe target (fst (clientHelloServerName br)) = Some target
    /\ fst (acmeMatch_match acmeTargets order br)
       = Some (Some target, fst (clientHelloServerName br)).
Proof.
  intros Hperm Hsuf Hin Hyes. unfold acmeMatch_match.
  destruct (clientHelloServerName br) as [sni br'] eqn:E. simpl in *.
  rewrite Hsuf. simpl. rewrite tryACME_fold. simpl.
  rewrite <- (Permutation_length Hperm).
  rewrite <- (length_map (fun target => acmeProbe target sni) order).
  destruct (receive_some sni (map (fun target => acmeProbe target sni) order))
    as (t & Ht & Hr).
  - apply List.Exists_exists. exists (Some winner). split; [|discriminate].
    apply in_map_iff. exists winner. split; [assumption|].
    eapply Permutation_in; [symmetry; eassumption | assumption].
  - exists t. apply in_map_iff in Ht as (t0 & Hp & Hin0).
    assert (t0 = t).
    { unfold acmeProbe in Hp. destruct (Handshake t0 sni) as [|[|c r]]; try discriminate.
      destruct (VerifyHostname c sni); congruence. }
    subst t0. split; [eapply Permutation_in; eassumption|]. split; assumption.
Qed.

(** *** Registering routes *)

Lemma configFor_store (p : Proxy) (k k' : string) (cfg : config) :
  configFor (store p k cfg) k' = if decide (k = k') then cfg else configFor p k'.
Proof.
  unfold configFor, store. simpl.
  destruct (decide (k = k')) as [->|Hne].
  - now rewrite lookup_insert_eq.
  - now rewrite lookup_insert_ne.
Qed.

Lemma configFor_newProxy (k : string) : configFor newProxy k = emptyConfig.
Proof. unfold configFor, newProxy. simpl. now rewrite lookup_empty. Qed.

Lemma configFor_addRouteWithId (p : Proxy) (k k' : string) (m : matcher) (routeId : UUID) :
  configFor (addRouteWithId p k m routeId) k'
  = if decide (k = k') then
      {| routes := routes (configFor p k) ++ [{| id := routeId; match_ := m |}];
         acmeTargets := acmeTargets (configFor p k);
         stopACME := stopACME (configFor p k);
         negotiateFunc := negotiateFunc (configFor p k) |}
    else configFor p k'.
Proof. unfold addRouteWithId. apply configFor_store. Qed.

(** The routes a call of [AddSNIMatchRoute] appends to a listener whose config
    is [cfg]. *)
Definition sniRoutes (cfg : config) (ipPort : string) (routeId : UUID)
    (m : Matcher) (dest : Target) : list route :=
  (if negb (stopACME cfg) && (length (acmeTargets cfg) =? 0)%nat
   then [{| id := routeId; match_ := acmeMatch ipPort |}] else [])
  ++ [{| id := routeId; match_ := sniMatch (Some m) (Some dest) None |}].

(** [AddSNIMatchRoute] in one step. *)
Lemma configFor_AddSNIMatchRoute (fresh : UUID) (p : Proxy) (k k' : string)
    (m : Matcher) (dest : Target) :
  configFor (fst (AddSNIMatchRoute fresh p k m dest)) k'
  = if decide (k = k') then
      {| routes := routes (configFor p k) ++ sniRoutes (configFor p k) k fresh m dest;
         acmeTargets :=
           if stopACME (configFor p k) then acmeTargets (configFor p k)
           else acmeTargets (configFor p k) ++ [dest];
         stopACME := stopACME (configFor p k);
         negotiateFunc := negotiateFunc (configFor p k) |}
    else configFor p k'.
Proof.
  unfold AddSNIMatchRoute, sniRoutes. simpl.
  rewrite configFor_addRouteWithId.
  destruct (decide (k = k')) as [->|Hne].
  - destruct (stopACME (configFor p k')) eqn:Hstop; simpl.
    + rewrite Hstop. reflexivity.
    + rewrite configFor_store. rewrite decide_True by reflexivity. simpl.
      destruct (length (acmeTargets (configFor p k')) =? 0)%nat eqn:Hlen; simpl.
      * rewrite configFor_addRouteWithId. rewrite decide_True by reflexivity. simpl.
        rewrite Hstop. rewrite <- app_assoc. reflexivity.
      * rewrite Hstop. reflexivity.
  - destruct (stopACME (configFor p k)); simpl; [reflexivity|].
    rewrite configFor_store. rewrite decide_False by assumption.
    destruct (length (acmeTargets (configFor p k)) =? 0)%nat; [|reflexivity].
    rewrite configFor_addRouteWithId. now rewrite decide_False by assumption.
Qed.

(** What a call does to the listener [k']: the routes it appends, and whether
    it appends them together with an ACME-eligible target. *)
Definition appended (c : call) (p : Proxy) (k' : string) : list route :=
  match c with
  | CallAddSNIRoute fresh k sni dest =>
    if decide (k = k') then sniRoutes (configFor p k) k fresh (equals sni) dest else []
  | CallAddSNIMatchRoute fresh k m dest =>
    if decide (k = k') then sniRoutes (configFor p k) k fresh m dest else []
  | CallAddSNIDynamicRoute fresh k t =>
    if decide (k = k') then [{| id := fresh; match_ := dynamicSNIMatch t |}] else []
  | CallAddSNIDynamicSMTPRoute fresh k _ t =>
    if decide (k = k') then [{| id := fresh; match_ := dynamicSNIMatch t |}] else []
  | CallAddSNIRouteFunc fresh k fn =>
    if decide (k = k') then [{| id := fresh; match_ := sniMatch None None fn |}] else []
  | CallAddStopACMESearch _ => []
  end.

Lemma perform_routes (c : call) (p : Proxy) (k' : string) :
  routes (configFor (perform c p) k') = routes (configFor p k') ++ appended c p k'.
Proof.
  destruct c as [fresh k sni dest | fresh k m dest | fresh k t | fresh k s t | fresh k fn | k];
    cbn [perform appended].
  - unfold AddSNIRoute. rewrite configFor_AddSNIMatchRoute.
    destruct (decide (k = k')) as [->|]; simpl; [reflexivity | now rewrite app_nil_r].
  - rewrite configFor_AddSNIMatchRoute.
    destruct (decide (k = k')) as [->|]; simpl; [reflexivity | now rewrite app_nil_r].
  - unfold AddSNIDynamicRoute, addRoute. cbn [fst]. rewrite configFor_addRouteWithId.
    destruct (decide (k = k')) as [->|]; simpl; [reflexivity | now rewrite app_nil_r].
  - unfold AddSNIDynamicSMTPRoute, addRoute. cbn [fst]. rewrite configFor_addRouteWithId.
    destruct (decide (k = k')) as [->|Hne]; simpl.
    + rewrite configFor_store, decide_True by reflexivity. reflexivity.
    + rewrite configFor_store, decide_False by assumption. now rewrite app_nil_r.
  - unfold AddSNIRouteFunc, addRoute. cbn [fst]. rewrite configFor_addRouteWithId.
    destruct (decide (k = k')) as [->|]; simpl; [reflexivity | now rewrite app_nil_r].
  - unfold AddStopACMESearch. rewrite configFor_store.
    destruct (decide (k = k')) as [->|]; simpl; now rewrite app_nil_r.
Qed.

(** A listener has an ACME pseudo-route exactly when it has an ACME-eligible
    target, and then it has one. *)
Definition acmeOnce (cfg : config) : Prop :=
  countACME (routes cfg) = match acmeTargets cfg with [] => 0%nat | _ => 1%nat end.

Lemma countACME_app (rs rs' : list route) :
  countACME (rs ++ rs') = (countACME rs + countACME rs')%nat.
Proof. unfold countACME. now rewrite List.filter_app, length_app. Qed.

Lemma acmeOnce_AddSNIMatchRoute (fresh : UUID) (p : Proxy) (k k' : string)
    (m : Matcher) (dest : Target) :
  (forall k0, acmeOnce (configFor p k0)) ->
  acmeOnce (configFor (fst (AddSNIMatchRoute fresh p k m dest)) k').
Proof.
  intros Hall. rewrite configFor_AddSNIMatchRoute.
  destruct (decide (k = k')) as [->|]; [|apply Hall].
  specialize (Hall k'). unfold acmeOnce in *. simpl.
  rewrite countACME_app, Hall. unfold sniRoutes.
  destruct (stopACME (configFor p k')); simpl.
  - unfold countACME; simpl. lia.
  - destruct (acmeTargets (configFor p k')) as [|t ts]; simpl; reflexivity.
Qed.

Lemma acmeOnce_perform (c : call) (p : Proxy) :
  (forall k, acmeOnce (configFor p k)) ->
  forall k, acmeOnce (configFor (perform c p) k).
Proof.
  intros Hall k'.
  destruct c as [fresh k sni dest | fresh k m dest | fresh k t | fresh k s t | fresh k fn | k];
    cbn [perform].
  - now apply acmeOnce_AddSNIMatchRoute.
  - now apply acmeOnce_AddSNIMatchRoute.
  - unfold AddSNIDynamicRoute, addRoute. cbn [fst]. rewrite configFor_addRouteWithId.
    destruct (decide (k = k')) as [->|]; [|apply Hall].
    specialize (Hall k'). unfold acmeOnce in *; simpl.
    rewrite countACME_app, Hall. unfold countACME; simpl. lia.
  - unfold AddSNIDynamicSMTPRoute, addRoute. cbn [fst]. rewrite configFor_addRouteWithId.
    destruct (decide (k = k')) as [->|Hne].
    + rewrite configFor_store, decide_True by reflexivity.
      specialize (Hall k'). unfold acmeOnce in *; simpl.
      rewrite countACME_app, Hall. unfold countACME; simpl. lia.
    + rewrite configFor_store, decide_False by assumption. apply Hall.
  - unfold AddSNIRouteFunc, addRoute. cbn [fst]. rewrite configFor_addRouteWithId.
    destruct (decide (k = k')) as [->|]; [|apply Hall].
    specialize (Hall k'). unfold acmeOnce in *; simpl.
    rewrite countACME_app, Hall. unfold countACME; simpl. lia.
  - unfold AddStopACMESearch. rewrite configFor_store.
    destruct (decide (k = k')) as [->|]; [|apply Hall].
    apply (Hall k').
Qed.

Lemma acmeOnce_setup (cs : list call) (p : Proxy) :
  (forall k, acmeOnce (configFor p k)) ->
  forall k, acmeOnce (configFor (setup cs p) k).
Proof.
  revert p. induction cs as [|c cs IH]; intros p Hall; simpl; [assumption|].
  apply IH. now apply acmeOnce_perform.
Qed.

Lemma acmeOnce_reachable (p : Proxy) (k : string) :
  reachable p -> acmeOnce (configFor p k).
Proof.
  intros [cs ->]. apply acmeOnce_setup.
  intros k0. rewrite configFor_newProxy. reflexivity.
Qed.

(** C7. On a proxy built by a setup phase, a call of [AddSNIMatchRoute] for a
    listener whose ACME search is not disabled appends its target to the
    listener's ACME-eligible targets and leaves the listener with exactly one
    ACME pseudo-route: the first such call registers it, before its SNI
    route, and every later one registers its SNI route only. With ACME search
    disabled the call registers its SNI route only and leaves the
    ACME-eligible targets as they were. *)
Theorem AddSNIMatchRoute_acme_once (p : Proxy) (fresh : UUID) (ipPort : string)
    (m : Matcher) (dest : Target) :
  reachable p ->
  let cfg := configFor p ipPort in
  let cfg' := configFor (fst (AddSNIMatchRoute fresh p ipPort m dest)) ipPort in
  let sni := {| id := fresh; match_ := sniMatch (Some m) (Some dest) None |} in
  if stopACME cfg then
    routes cfg' = routes cfg ++ [sni]
    /\ countACME (routes cfg') = countACME (routes cfg)
    /\ acmeTargets cfg' = acmeTargets cfg
  else
    acmeTargets cfg' = acmeTargets cfg ++ [dest]
    /\ countACME (routes cfg') = 1%nat
    /\ match acmeTargets cfg with
       | [] =>
         countACME (routes cfg) = 0%nat
         /\ routes cfg' = routes cfg ++ [{| id := fresh; match_ := acmeMatch ipPort |}; sni]
       | _ :: _ =>
         countACME (routes cfg) = 1%nat
         /\ routes cfg' = routes cfg ++ [sni]
       end.
Proof.
  intros Hreach cfg cfg' sni.
  pose proof (acmeOnce_reachable p ipPort Hreach) as Hinv. fold cfg in Hinv.
  unfold acmeOnce in Hinv.
  subst cfg'. rewrite configFor_AddSNIMatchRoute, decide_True by reflexivity.
  fold cfg. unfold sniRoutes. simpl.
  destruct (stopACME cfg); simpl.
  - split; [reflexivity|]. split; [|reflexivity].
    rewrite countACME_app. unfold countACME at 2. simpl. lia.
  - split; [reflexivity|].
    destruct (acmeTargets cfg) as [|t ts]; simpl.
    + rewrite countACME_app, Hinv. unfold countACME. simpl. auto.
    + rewrite countACME_app, Hinv. unfold countACME. simpl. auto.
Qed.

(** *** Route ids *)

















(** *** The other matchers of sni.go *)

(** What a call returns, or that it panics (a nil function is called). *)
Inductive outcome (A : Type) : Type :=
| Returns (a : A)
| Panics.

#[global] Arguments Returns {A} a.
#[global] Arguments Panics {A}.

(** [sniMatch.match] (sni.go). The target a [targetFunc] returns with [ok]
    is taken to be one (no nil). *)
Definition sniMatch_match (m : option Matcher) (target : option Target)
    (targetFunc : option SNITargetFunc) (br : Reader)
  : outcome (option Target * string) * Reader :=
  let '(sni, br) := clientHelloServerName br in
  if String.eqb sni EmptyString then (Returns (None, EmptyString), br)
  else
    match targetFunc with
    | Some fn =>
      let '(t, ok) := fn sni in
      if ok then (Returns (Some t, sni), br) else (Returns (None, EmptyString), br)
    | None =>
      match m with
      | None => (Panics, br)
      | Some matcher =>
        if matcher sni then (Returns (target, sni), br)
        else (Returns (None, EmptyString), br)
      end
    end.

(** [sniMatch.match] as the repository's other copy of sni.go has it: no
    [targetFunc], and no test of the sniffed name. *)
Definition sniMatch_match_plain (m : option Matcher) (target : option Target) (br : Reader)
  : outcome (option Target * string) * Reader :=
  let '(sni, br) := clientHelloServerName br in
  match m with
  | None => (Panics, br)
  | Some matcher =>
    if matcher sni then (Returns (target, sni), br)
    else (Returns (None, EmptyString), br)
  end.

(** [dynamicSNIMatch.match] (sni.go). The target a lookup returns with a nil
    error is taken to be one (no nil). *)
Definition dynamicSNIMatch_match (dynMatcher : option DynamicTarget) (br : Reader)
  : (option Target * string) * Reader :=
  let '(sni, br) := clientHelloServerName br in
  match dynMatcher with
  | None => ((None, EmptyString), br)
  | Some lookup =>
    let '(target, err) := lookup sni in
    match err with
    | Some _ => ((None, EmptyString), br)
    | None => ((Some target, sni), br)
    end
  end.

(** [ReadEhloAndStartTLS] (sni.go), on the connection's textproto view. *)
Definition ReadEhloAndStartTLS (t : Textproto.Conn) : string * option error * Textproto.Conn :=
  let '(l, err, t) := Textproto.ReadLine t in
  match err with
  | Some _ => (EmptyString, None, t)
  | None => (l, None, t)
  end.

(** [clientEhloServerName] (sni.go). *)
Definition clientEhloServerName (c : Textproto.Conn) : string * Textproto.Conn :=
  let '(ehlo, err, c) := ReadEhloAndStartTLS c in
  match err with
  | Some _ => (EmptyString, c)
  | None => (ehlo, c)
  end.

(** *** The sniff, by the bytes to be read *)

Definition nameOf (r : ClientHelloInfo + error) : string :=
  match r with
  | inl hello => ServerName hello
  | inr _ => EmptyString
  end.

Lemma clientHelloServerName_sniffed (br : Reader) :
  wf br ->
  fst (clientHelloServerName br) = nameOf (sniffed (unread br) (size br))
  /\ wf (snd (clientHelloServerName br))
  /\ unread (snd (clientHelloServerName br)) = unread br
  /\ size (snd (clientHelloServerName br)) = size br.
Proof.
  intros Hwf. destruct (ReadClientHelloInfo_sniffed br Hwf) as (Hr & Hw & Hu & Hs).
  unfold clientHelloServerName.
  destruct (ReadClientHelloInfo br) as [r br'] eqn:E. simpl in *.
  rewrite <- Hr. destruct r; simpl; auto.
Qed.

(** The record length the header declares. *)
Definition declared (data : list byte) : nat :=
  (5 + Z.to_nat (Z.lor (Z.shiftl (int (at_ data 3)) 8) (int (at_ data 4))))%nat.

Lemma at_firstn (data : list byte) (i n : nat) :
  (i < n)%nat -> at_ (firstn n data) i = at_ data i.
Proof.
  intros H. unfold at_. rewrite nth_firstn.
  apply Nat.ltb_lt in H. now rewrite H.
Qed.

Lemma sniffed_by_data (data : list byte) (sz : nat) :
  nameOf (sniffed data sz)
  = if (sz <? 5)%nat || (length data <? 5)%nat then EmptyString
    else if negb (Byte.eqb (at_ data 0) Byte.x16) then EmptyString
    else if (sz <? declared data)%nat || (length data <? declared data)%nat then EmptyString
    else match clientHello (firstn (declared data) data) with
         | Some hello => ServerName hello
         | None => EmptyString
         end.
Proof.
  unfold sniffed, peeked, recordHeaderLen, recordTypeHandshake, declared.
  destruct (sz <? 5)%nat; [reflexivity|].
  destruct (length data <? 5)%nat; [reflexivity|]. cbn [orb nameOf].
  rewrite !at_firstn by lia.
  destruct (negb (Byte.eqb (at_ data 0) Byte.x16)); [reflexivity|]. cbv zeta.
  destruct (sz <? _)%nat; [reflexivity|].
  destruct (length data <? _)%nat; [reflexivity|]. cbn [orb nameOf].
  destruct (clientHello _); reflexivity.
Qed.

(** X5. The sniffed name is a function of the bytes still to be read and of the
    buffer's capacity: it is empty when fewer than five bytes are left or fit
    the buffer, when the first is not 0x16, and when the record the header
    declares is longer than what is left or than the buffer; otherwise it is
    the name the TLS parser finds in the first record, header included, and
    no byte after that record plays a part. *)
Theorem clientHelloServerName_by_data (br : Reader) :
  wf br ->
  fst (clientHelloServerName br)
  = if (size br <? 5)%nat || (length (unread br) <? 5)%nat then EmptyString
    else if negb (Byte.eqb (at_ (unread br) 0) Byte.x16) then EmptyString
    else if (size br <? declared (unread br))%nat
            || (length (unread br) <? declared (unread br))%nat then EmptyString
    else match clientHello (firstn (declared (unread br)) (unread br)) with
         | Some hello => ServerName hello
         | None => EmptyString
         end.
Proof.
  intros Hwf. destruct (clientHelloServerName_sniffed br Hwf) as (-> & _).
  apply sniffed_by_data.
Qed.

(** *** SNI and dynamic routes *)

(** X6. [sniMatch.match] returns no match on an empty sniffed name, whatever the
    route holds, a route without any function included. On another name a
    [targetFunc] decides alone: the matcher and the target are not looked at.
    The call panics exactly when the name is not empty and the route has
    neither function. A match reports the sniffed name, which is not
    empty. *)
Theorem sniMatch_match_guard (m : option Matcher) (target : option Target)
    (targetFunc : option SNITargetFunc) (br : Reader) :
  (fst (clientHelloServerName br) = EmptyString ->
   fst (sniMatch_match m target targetFunc br) = Returns (None, EmptyString))
  /\ (forall fn m' target',
        fst (sniMatch_match m target (Some fn) br)
        = fst (sniMatch_match m' target' (Some fn) br))
  /\ (fst (sniMatch_match m target targetFunc br) = Panics
      <-> fst (clientHelloServerName br) <> EmptyString /\ targetFunc = None /\ m = None)
  /\ (forall t h,
        fst (sniMatch_match m target targetFunc br) = Returns (Some t, h) ->
        h = fst (clientHelloServerName br) /\ h <> EmptyString).
Proof.
  unfold sniMatch_match.
  destruct (clientHelloServerName br) as [sni br'] eqn:E. cbn [fst].
  split; [|split; [|split]].
  - intros ->. reflexivity.
  - intros fn m' target'. destruct (String.eqb sni EmptyString); [reflexivity|].
    destruct (fn sni) as [t ok]. destruct ok; reflexivity.
  - destruct (String.eqb sni EmptyString) eqn:Es.
    + apply String.eqb_eq in Es. split; [discriminate | intros (H & _); contradiction].
    + apply String.eqb_neq in Es.
      destruct targetFunc as [fn|].
      * destruct (fn sni) as [t ok].
        destruct ok; (split; [discriminate | intros (_ & H & _); discriminate]).
      * destruct m as [matcher|].
        -- destruct (matcher sni); (split; [discriminate | intros (_ & _ & H); discriminate]).
        -- split; auto.
  - intros t h. destruct (String.eqb sni EmptyString) eqn:Es; [discriminate|].
    apply String.eqb_neq in Es.
    destruct targetFunc as [fn|].
    + destruct (fn sni) as [t' ok]. destruct ok; [|discriminate].
      intros [= _ <-]. auto.
    + destruct m as [matcher|]; [|discriminate].
      destruct (matcher sni); [|discriminate]. intros [= _ <-]. auto.
Qed.

(** X7. The two copies of [sniMatch.match] agree on every connection with a
    sniffed name. Where none was sniffed, sni.go's returns no match, while
    the other copy asks the matcher about the empty name and matches when it
    accepts it. *)
Theorem sniMatch_match_copies (matcher : Matcher) (target : option Target) (br : Reader) :
  fst (sniMatch_match (Some matcher) target None br)
  = (if String.eqb (fst (clientHelloServerName br)) EmptyString
     then Returns (None, EmptyString)
     else fst (sniMatch_match_plain (Some matcher) target br))
  /\ (fst (clientHelloServerName br) = EmptyString ->
      fst (sniMatch_match_plain (Some matcher) target br)
      = if matcher EmptyString then Returns (target, EmptyString)
        else Returns (None, EmptyString)).
Proof.
  unfold sniMatch_match, sniMatch_match_plain.
  destruct (clientHelloServerName br) as [sni br'] eqn:E. cbn [fst]. split.
  - destruct (String.eqb sni EmptyString); [reflexivity|].
    destruct (matcher sni); reflexivity.
  - intros ->. destruct (matcher EmptyString); reflexivity.
Qed.

(** What is no TLS handshake record: fewer than five bytes, or a first byte
    other than 0x16. *)
Definition notTLS (data : list byte) : Prop :=
  (length data < 5)%nat \/ at_ data 0 <> Byte.x16.

Lemma notTLS_name (br : Reader) :
  wf br -> notTLS (unread br) -> fst (clientHelloServerName br) = EmptyString.
Proof.
  intros Hwf Hno. destruct (clientHelloServerName_sniffed br Hwf) as (-> & _).
  rewrite sniffed_by_data.
  destruct (size br <? 5)%nat; [reflexivity|].
  destruct (length (unread br) <? 5)%nat eqn:El; [reflexivity|]. cbn [orb].
  destruct Hno as [Hlen | Hb].
  - apply Nat.ltb_ge in El. lia.
  - destruct (Byte.eqb (at_ (unread br) 0) Byte.x16) eqn:Eb; [|reflexivity].
    apply Byte.byte_dec_bl in Eb. contradiction.
Qed.

(** X8. On a connection that does not start with a TLS handshake record an SNI
    route never matches, whatever its matcher or function accepts, while a
    dynamic route asks its lookup about the empty name and matches, with the
    empty name, when the lookup returns a target and no error. *)
Theorem not_tls_routes (br : Reader) :
  wf br -> notTLS (unread br) ->
  (forall m target targetFunc,
      fst (sniMatch_match m target targetFunc br) = Returns (None, EmptyString))
  /\ (forall lookup,
        fst (dynamicSNIMatch_match (Some lookup) br)
        = match lookup EmptyString with
          | (target, None) => (Some target, EmptyString)
          | (_, Some _) => (None, EmptyString)
          end)
  /\ fst (dynamicSNIMatch_match None br) = (None, EmptyString).
Proof.
  intros Hwf Hno. pose proof (notTLS_name br Hwf Hno) as Hname.
  unfold sniMatch_match, dynamicSNIMatch_match.
  destruct (clientHelloServerName br) as [sni br'] eqn:E. cbn [fst] in *. subst sni.
  split; [|split]; try reflexivity.
  intros lookup. destruct (lookup EmptyString) as [t [e|]]; reflexivity.
Qed.

(** X9. No matcher consumes: after [match] of any of them the bytes still to be
    read are the ones that were to be read before. *)
Theorem matchers_only_peek (br : Reader) :
  wf br ->
  (forall m target targetFunc,
      unread (snd (sniMatch_match m target targetFunc br)) = unread br)
  /\ (forall m target, unread (snd (sniMatch_match_plain m target br)) = unread br)
  /\ (forall dynMatcher, unread (snd (dynamicSNIMatch_match dynMatcher br)) = unread br)
  /\ (forall acmeTargets order,
        unread (snd (acmeMatch_match acmeTargets order br)) = unread br).
Proof.
  intros Hwf. destruct (clientHelloServerName_sniffed br Hwf) as (_ & _ & Hu & _).
  unfold sniMatch_match, sniMatch_match_plain, dynamicSNIMatch_match, acmeMatch_match.
  destruct (clientHelloServerName br) as [sni br'] eqn:E. cbn [snd] in Hu.
  split; [|split; [|split]].
  - intros m target targetFunc.
    destruct (String.eqb sni EmptyString); [exact Hu|].
    destruct targetFunc as [fn|].
    + destruct (fn sni) as [t ok]. destruct ok; exact Hu.
    + destruct m as [matcher|]; [destruct (matcher sni)|]; exact Hu.
  - intros m target. destruct m as [matcher|]; [destruct (matcher sni)|]; exact Hu.
  - intros dyn. destruct dyn as [lookup|]; [|exact Hu].
    destruct (lookup sni) as [t [e|]]; exact Hu.
  - intros acmeTargets order.
    destruct (negb (Strings.HasSuffix sni ".acme.invalid")); exact Hu.
Qed.

(** X10. [ReadEhloAndStartTLS] never reports an error: where the read fails it
    returns the empty string and nil. So [clientEhloServerName] returns the
    whole of the first line, the empty string when there is none, and writes
    nothing. *)
Theorem clientEhloServerName_line (c : Textproto.Conn) :
  snd (fst (ReadEhloAndStartTLS c)) = None
  /\ fst (clientEhloServerName c) = match Textproto.rd c with
                                    | [] => EmptyString
                                    | l :: _ => l
                                    end
  /\ Textproto.wr (snd (clientEhloServerName c)) = Textproto.wr c
  /\ Textproto.rd (snd (clientEhloServerName c)) = tl (Textproto.rd c).
Proof.
  unfold clientEhloServerName, ReadEhloAndStartTLS, Textproto.ReadLine.
  destruct (Textproto.rd c) as [|l ls] eqn:E; cbn; rewrite ?E; auto.
Qed.

(** *** The ACME race *)

Definition saysYes (sni : string) (target : Target) : bool :=
  match acmeProbe target sni with
  | Some _ => true
  | None => false
  end.

Lemma acmeProbe_self (target t : Target) (sni : string) :
  acmeProbe target sni = Some t -> t = target.
Proof.
  unfold acmeProbe. destruct (Handshake target sni) as [|[|c r]]; try discriminate.
  destruct (VerifyHostname c sni); congruence.
Qed.

(** The receive loop over the results of the probes of [order]: the first
    target of [order] that says yes. *)
Lemma receive_first_yes (sni : string) (order : list Target) :
  receive (length order) (map (fun target => acmeProbe target sni) order) sni
  = Some match List.find (saysYes sni) order with
         | Some target => (Some target, sni)
         | None => (None, EmptyString)
         end.
Proof.
  induction order as [|t order IH]; [reflexivity|].
  cbn [length map receive List.find]. unfold saysYes at 1.
  destruct (acmeProbe t sni) as [t'|] eqn:E.
  - apply acmeProbe_self in E. now subst t'.
  - exact IH.
Qed.

(** X11. On a challenge name, with every probe finishing, the ACME matcher returns,
    and what it returns is the first target, in the order in which the probes
    finish, whose probe says yes, with the sniffed name; the non-match when
    none says yes. *)
Theorem acmeMatch_match_first_yes (acmeTargets order : list Target) (br : Reader) :
  length order = length acmeTargets ->
  Strings.HasSuffix (fst (clientHelloServerName br)) ".acme.invalid" = true ->
  fst (acmeMatch_match acmeTargets order br)
  = Some match List.find (saysYes (fst (clientHelloServerName br))) order with
         | Some target => (Some target, fst (clientHelloServerName br))
         | None => (None, EmptyString)
         end.
Proof.
  intros Hlen Hsuf. unfold acmeMatch_match.
  destruct (clientHelloServerName br) as [sni br'] eqn:E. cbn [fst] in *.
  rewrite Hsuf. cbn [negb fst]. rewrite tryACME_fold. cbn [app].
  rewrite <- Hlen. apply receive_first_yes.
Qed.

Lemma find_only (sni : string) (order : list Target) (winner : Target) :
  In winner order -> saysYes sni winner = true ->
  (forall t, In t order -> saysYes sni t = true -> t = winner) ->
  List.find (saysYes sni) order = Some winner.
Proof.
  induction order as [|t order IH]; intros Hin Hyes Honly; [destruct Hin|].
  cbn [List.find]. destruct (saysYes sni t) eqn:Et.
  - f_equal. apply Honly; [now left | assumption].
  - destruct Hin as [-> | Hin]; [congruence|].
    apply IH; [assumption | assumption |].
    intros t' Ht'. apply Honly. now right.
Qed.

(** X12. When exactly one eligible target passes its probe, the ACME matcher
    returns that target whatever the order in which the probes finish. *)
Theorem acmeMatch_match_only_winner (acmeTargets order : list Target) (br : Reader)
    (winner : Target) :
  Permutation order acmeTargets ->
  Strings.HasSuffix (fst (clientHelloServerName br)) ".acme.invalid" = true ->
  In winner acmeTargets ->
  acmeProbe winner (fst (clientHelloServerName br)) = Some winner ->
  (forall t, In t acmeTargets ->
             acmeProbe t (fst (clientHelloServerName br)) <> None -> t = winner) ->
  fst (acmeMatch_match acmeTargets order br)
  = Some (Some winner, fst (clientHelloServerName br)).
Proof.
  intros Hperm Hsuf Hin Hyes Honly. unfold acmeMatch_match.
  destruct (clientHelloServerName br) as [sni br'] eqn:E. cbn [fst] in *.
  rewrite Hsuf. cbn [negb fst]. rewrite tryACME_fold. cbn [app].
  rewrite <- (Permutation_length Hperm), receive_first_yes.
  rewrite (find_only sni order winner); [reflexivity | | |].
  - eapply Permutation_in; [symmetry; eassumption | assumption].
  - unfold saysYes. now rewrite Hyes.
  - intros t Ht Hy. apply Honly.
    + eapply Permutation_in; eassumption.
    + unfold saysYes in Hy. destruct (acmeProbe t sni); [discriminate | discriminate].
Qed.

(** *** A setup phase, field by field *)

(** The listener a call is for. *)
Definition listenerOf (c : call) : string :=
  match c with
  | CallAddSNIRoute _ ipPort _ _ => ipPort
  | CallAddSNIMatchRoute _ ipPort _ _ => ipPort
  | CallAddSNIDynamicRoute _ ipPort _ => ipPort
  | CallAddSNIDynamicSMTPRoute _ ipPort _ _ => ipPort
  | CallAddSNIRouteFunc _ ipPort _ => ipPort
  | CallAddStopACMESearch ipPort => ipPort
  end.

(** The targets the calls [cs] make ACME-eligible on the listener [k], given
    whether its ACME search is stopped before them: those of the SNI routes
    added for [k] before the first [AddStopACMESearch] for [k]. *)
Fixpoint eligible (k : string) (stopped : bool) (cs : list call) : list Target :=
  match cs with
  | [] => []
  | c :: cs' =>
    if stopped then []
    else
      match c with
      | CallAddSNIRoute _ ipPort _ dest | CallAddSNIMatchRoute _ ipPort _ dest =>
        if decide (ipPort = k) then dest :: eligible k false cs' else eligible k false cs'
      | CallAddStopACMESearch ipPort =>
        if decide (ipPort = k) then [] else eligible k false cs'
      | _ => eligible k false cs'
      end
  end.

(** Whether one of the calls [cs] stops the ACME search of the listener [k]. *)
Definition stops (k : string) (cs : list call) : bool :=
  existsb (fun c => match c with
                    | CallAddStopACMESearch ipPort => bool_decide (ipPort = k)
                    | _ => false
                    end) cs.

(** The hook the calls [cs] leave on the listener [k] that had the hook
    [hook]: that of the last [AddSNIDynamicSMTPRoute] for [k]. *)
Fixpoint hookAfter (k : string) (hook : option NegotiateFunc) (cs : list call)
  : option NegotiateFunc :=
  match cs with
  | [] => hook
  | CallAddSNIDynamicSMTPRoute _ ipPort serverName _ :: cs' =>
    if decide (ipPort = k)
    then hookAfter k (Some (StartTLS.negotiateSMTPStartTLS serverName)) cs'
    else hookAfter k hook cs'
  | _ :: cs' => hookAfter k hook cs'
  end.

Lemma perform_other (c : call) (p : Proxy) (k' : string) :
  listenerOf c <> k' -> configFor (perform c p) k' = configFor p k'.
Proof.
  intros Hne.
  destruct c as [fresh k sni dest | fresh k m dest | fresh k t | fresh k s t | fresh k fn | k];
    cbn [perform listenerOf] in *.
  - unfold AddSNIRoute. rewrite configFor_AddSNIMatchRoute. now rewrite decide_False.
  - rewrite configFor_AddSNIMatchRoute. now rewrite decide_False.
  - unfold AddSNIDynamicRoute, addRoute. cbn [fst]. rewrite configFor_addRouteWithId.
    now rewrite decide_False.
  - unfold AddSNIDynamicSMTPRoute, addRoute. cbn [fst]. rewrite configFor_addRouteWithId.
    rewrite decide_False by assumption. rewrite configFor_store. now rewrite decide_False.
  - unfold AddSNIRouteFunc, addRoute. cbn [fst]. rewrite configFor_addRouteWithId.
    now rewrite decide_False.
  - unfold AddStopACMESearch. rewrite configFor_store. now rewrite decide_False.
Qed.

Lemma perform_acmeTargets (c : call) (p : Proxy) (k : string) :
  acmeTargets (configFor (perform c p) k)
  = acmeTargets (configFor p k) ++ eligible k (stopACME (configFor p k)) [c].
Proof.
  destruct (decide (listenerOf c = k)) as [Hk | Hne].
  2: { rewrite perform_other by assumption.
       destruct (stopACME (configFor p k)); cbn [eligible]; [now rewrite app_nil_r|].
       destruct c; cbn [listenerOf] in Hne; rewrite ?decide_False by assumption;
         now rewrite app_nil_r. }
  destruct c as [fresh k0 sni dest | fresh k0 m dest | fresh k0 t | fresh k0 s t | fresh k0 fn | k0];
    cbn [perform listenerOf] in *; subst k0.
  - unfold AddSNIRoute. rewrite configFor_AddSNIMatchRoute, decide_True by reflexivity.
    cbn [acmeTargets]. destruct (stopACME (configFor p k)); cbn [eligible].
    + now rewrite app_nil_r.
    + now rewrite decide_True by reflexivity.
  - rewrite configFor_AddSNIMatchRoute, decide_True by reflexivity.
    cbn [acmeTargets]. destruct (stopACME (configFor p k)); cbn [eligible].
    + now rewrite app_nil_r.
    + now rewrite decide_True by reflexivity.
  - unfold AddSNIDynamicRoute, addRoute. cbn [fst].
    rewrite configFor_addRouteWithId, decide_True by reflexivity. cbn [acmeTargets].
    destruct (stopACME (configFor p k)); cbn [eligible]; now rewrite app_nil_r.
  - unfold AddSNIDynamicSMTPRoute, addRoute. cbn [fst].
    rewrite configFor_addRouteWithId, decide_True by reflexivity. cbn [acmeTargets].
    rewrite configFor_store, decide_True by reflexivity. cbn [acmeTargets].
    destruct (stopACME (configFor p k)); cbn [eligible]; now rewrite app_nil_r.
  - unfold AddSNIRouteFunc, addRoute. cbn [fst].
    rewrite configFor_addRouteWithId, decide_True by reflexivity. cbn [acmeTargets].
    destruct (stopACME (configFor p k)); cbn [eligible]; now rewrite app_nil_r.
  - unfold AddStopACMESearch. rewrite configFor_store, decide_True by reflexivity.
    cbn [acmeTargets]. destruct (stopACME (configFor p k)); cbn [eligible].
    + now rewrite app_nil_r.
    + rewrite decide_True by reflexivity. now rewrite app_nil_r.
Qed.

Lemma perform_stopACME (c : call) (p : Proxy) (k : string) :
  stopACME (configFor (perform c p) k) = stopACME (configFor p k) || stops k [c].
Proof.
  destruct (decide (listenerOf c = k)) as [Hk | Hne].
  2: { rewrite perform_other by assumption. unfold stops. cbn [existsb].
       destruct c; cbn [listenerOf] in Hne; rewrite ?bool_decide_eq_false_2 by assumption;
         now rewrite ?orb_false_r. }
  unfold stops. cbn [existsb].
  destruct c as [fresh k0 sni dest | fresh k0 m dest | fresh k0 t | fresh k0 s t | fresh k0 fn | k0];
    cbn [perform listenerOf] in *; subst k0; rewrite ?orb_false_r.
  - unfold AddSNIRoute. now rewrite configFor_AddSNIMatchRoute, decide_True by reflexivity.
  - now rewrite configFor_AddSNIMatchRoute, decide_True by reflexivity.
  - unfold AddSNIDynamicRoute, addRoute. cbn [fst].
    now rewrite configFor_addRouteWithId, decide_True by reflexivity.
  - unfold AddSNIDynamicSMTPRoute, addRoute. cbn [fst].
    rewrite configFor_addRouteWithId, decide_True by reflexivity. cbn [stopACME].
    now rewrite configFor_store, decide_True by reflexivity.
  - unfold AddSNIRouteFunc, addRoute. cbn [fst].
    now rewrite configFor_addRouteWithId, decide_True by reflexivity.
  - unfold AddStopACMESearch. rewrite configFor_store, decide_True by reflexivity.
    cbn [stopACME]. rewrite bool_decide_eq_true_2 by reflexivity. now rewrite orb_true_r.
Qed.

Lemma perform_negotiateFunc (c : call) (p : Proxy) (k : string) :
  negotiateFunc (configFor (perform c p) k) = hookAfter k (negotiateFunc (configFor p k)) [c].
Proof.
  destruct (decide (listenerOf c = k)) as [Hk | Hne].
  2: { rewrite perform_other by assumption.
       destruct c; cbn [listenerOf hookAfter] in *; rewrite ?decide_False by assumption;
         reflexivity. }
  destruct c as [fresh k0 sni dest | fresh k0 m dest | fresh k0 t | fresh k0 s t | fresh k0 fn | k0];
    cbn [perform listenerOf hookAfter] in *; subst k0.
  - unfold AddSNIRoute. now rewrite configFor_AddSNIMatchRoute, decide_True by reflexivity.
  - now rewrite configFor_AddSNIMatchRoute, decide_True by reflexivity.
  - unfold AddSNIDynamicRoute, addRoute. cbn [fst].
    now rewrite configFor_addRouteWithId, decide_True by reflexivity.
  - unfold AddSNIDynamicSMTPRoute, addRoute. cbn [fst].
    rewrite configFor_addRouteWithId, !decide_True by reflexivity. cbn [negotiateFunc].
    now rewrite configFor_store, decide_True by reflexivity.
  - unfold AddSNIRouteFunc, addRoute. cbn [fst].
    now rewrite configFor_addRouteWithId, decide_True by reflexivity.
  - unfold AddStopACMESearch. now rewrite configFor_store, decide_True by reflexivity.
Qed.

Lemma eligible_stopped (k : string) (cs : list call) : eligible k true cs = [].
Proof. destruct cs; reflexivity. Qed.

Lemma eligible_cons (k : string) (stopped : bool) (c : call) (cs : list call) :
  eligible k stopped (c :: cs)
  = eligible k stopped [c] ++ eligible k (stopped || stops k [c]) cs.
Proof.
  destruct stopped; [now rewrite !eligible_stopped|].
  unfold stops. cbn [existsb orb eligible].
  destruct c as [fresh k0 sni dest | fresh k0 m dest | fresh k0 t | fresh k0 s t | fresh k0 fn | k0];
    rewrite ?orb_false_r; try reflexivity.
  - destruct (decide (k0 = k)); reflexivity.
  - destruct (decide (k0 = k)); reflexivity.
  - destruct (decide (k0 = k)) as [->|Hne].
    + rewrite bool_decide_eq_true_2 by reflexivity. now rewrite eligible_stopped.
    + now rewrite bool_decide_eq_false_2 by assumption.
Qed.

(** X13. The ACME-eligible targets of a listener after any calls: those it had,
    and then the targets of the SNI routes added for it before its ACME
    search was stopped, in the order of the calls. Routes added by the other
    calls, and SNI routes added after the stop, give none. *)
Theorem acmeTargets_after_setup (cs : list call) (p : Proxy) (k : string) :
  acmeTargets (configFor (setup cs p) k)
  = acmeTargets (configFor p k) ++ eligible k (stopACME (configFor p k)) cs.
Proof.
  revert p. induction cs as [|c cs IH]; intros p.
  - destruct (stopACME (configFor p k)); simpl; now rewrite app_nil_r.
  - cbn [setup]. rewrite IH, perform_acmeTargets, perform_stopACME, <- app_assoc.
    now rewrite <- eligible_cons.
Qed.

Lemma appended_stopped (c : call) (p : Proxy) (k : string) :
  stopACME (configFor p k) = true -> countACME (appended c p k) = 0%nat.
Proof.
  intros Hstop.
  destruct c as [fresh k0 sni dest | fresh k0 m dest | fresh k0 t | fresh k0 s t | fresh k0 fn | k0];
    cbn [appended]; try (destruct (decide (k0 = k)) as [->|]); try reflexivity.
  all: unfold sniRoutes; rewrite Hstop; reflexivity.
Qed.

(** X14. Stopping the ACME search of a listener is for good: whatever calls
    follow, the search stays stopped, the listener's ACME-eligible targets
    stay the ones it had, and no ACME pseudo-route is added to its table. *)
Theorem AddStopACMESearch_for_good (cs : list call) (p : Proxy) (k : string) :
  stopACME (configFor p k) = true ->
  stopACME (configFor (setup cs p) k) = true
  /\ acmeTargets (configFor (setup cs p) k) = acmeTargets (configFor p k)
  /\ countACME (routes (configFor (setup cs p) k)) = countACME (routes (configFor p k)).
Proof.
  revert p. induction cs as [|c cs IH]; intros p Hstop; [auto|].
  cbn [setup].
  assert (Hstop' : stopACME (configFor (perform c p) k) = true)
    by (now rewrite perform_stopACME, Hstop).
  destruct (IH _ Hstop') as (H1 & H2 & H3).
  split; [assumption|]. split.
  - rewrite H2, perform_acmeTargets, Hstop, eligible_stopped. now rewrite app_nil_r.
  - rewrite H3, perform_routes, countACME_app, (appended_stopped c p k Hstop). lia.
Qed.

(** X15. The negotiation hook belongs to the listener, not to a route: after
    any calls it is that of the last [AddSNIDynamicSMTPRoute] for the
    listener, and the hook the listener had when there was none; no call
    removes it. *)
Theorem negotiateFunc_after_setup (cs : list call) (p : Proxy) (k : string) :
  negotiateFunc (configFor (setup cs p) k) = hookAfter k (negotiateFunc (configFor p k)) cs
  /\ (negotiateFunc (configFor p k) <> None ->
      negotiateFunc (configFor (setup cs p) k) <> None).
Proof.
  assert (H : forall cs p,
             negotiateFunc (configFor (setup cs p) k)
             = hookAfter k (negotiateFunc (configFor p k)) cs).
  { clear. induction cs as [|c cs IH]; intros p; [reflexivity|].
    cbn [setup]. rewrite IH, perform_negotiateFunc.
    destruct c as [fresh k0 sni dest | fresh k0 m dest | fresh k0 t | fresh k0 s t | fresh k0 fn | k0];
      cbn [hookAfter]; try reflexivity.
    destruct (decide (k0 = k)); reflexivity. }
  split; [apply H|].
  rewrite H. generalize (negotiateFunc (configFor p k)). clear.
  induction cs as [|c cs IH]; intros hook Hh; [assumption|].
  destruct c as [fresh k0 sni dest | fresh k0 m dest | fresh k0 t | fresh k0 s t | fresh k0 fn | k0];
    cbn [hookAfter]; try (now apply IH).
  destruct (decide (k0 = k)); apply IH; [discriminate | assumption].
Qed.

End Routing.

(** *** The theorems at work *)



Lemma AddSNIMatchRoute_acme_once_witness :
  reachable nat (newProxy nat)
  /\ let cfg := configFor nat (newProxy nat) ":443" in
     let cfg' :=
       configFor nat
         (fst (AddSNIMatchRoute nat 7%N (newProxy nat) ":443" (equals "a.test") 1%nat))
         ":443" in
     let sni := {| id := 7%N;
                   match_ := sniMatch nat (Some (equals "a.test")) (Some 1%nat) None |} in
     if stopACME nat cfg then
       routes nat cfg' = routes nat cfg ++ [sni]
       /\ countACME nat (routes nat cfg') = countACME nat (routes nat cfg)
       /\ acmeTargets nat cfg' = acmeTargets nat cfg
     else
       acmeTargets nat cfg' = acmeTargets nat cfg ++ [1%nat]
       /\ countACME nat (routes nat cfg') = 1%nat
       /\ match acmeTargets nat cfg with
          | [] =>
            countACME nat (routes nat cfg) = 0%nat
            /\ routes nat cfg'
               = routes nat cfg ++ [{| id := 7%N; match_ := acmeMatch nat ":443" |}; sni]
          | _ :: _ =>
            countACME nat (routes nat cfg) = 1%nat
            /\ routes nat cfg' = routes nat cfg ++ [sni]
          end.
Proof.
  assert (H : reachable nat (newProxy nat)) by (exists []; reflexivity).
  split; [exact H|].
  exact (AddSNIMatchRoute_acme_once nat (newProxy nat) 7%N ":443" (equals "a.test") 1%nat H).
Defined.

(** A sniffer that reads every record as a hello for one name, and backends
    that all fail the handshake. *)
Definition helloFor (name : string) : list byte -> option ClientHelloInfo :=
  fun _ => Some {| ServerName := name |}.

Definition emptyRecord : list byte := [Byte.x16; Byte.x03; Byte.x01; Byte.x00; Byte.x00].

Lemma acmeMatch_no_match_witness :
  Permutation [2%nat; 1%nat] [1%nat; 2%nat]
  /\ Strings.HasSuffix
       (fst (clientHelloServerName (helloFor "foo.acme.invalid")
               (NewReaderSize emptyRecord 4096)))
       ".acme.invalid" = true
  /\ fst (acmeMatch_match (helloFor "foo.acme.invalid") nat unit
            (fun _ _ => inl EOF) (fun _ _ => None)
            [1%nat; 2%nat] [2%nat; 1%nat] (NewReaderSize emptyRecord 4096))
     = Some (None, EmptyString).
Proof.
  split; [apply perm_swap|]. split; [vm_compute; reflexivity|].
  apply (acmeMatch_no_match (helloFor "foo.acme.invalid") nat unit
           (fun _ _ => inl EOF) (fun _ _ => None)
           [1%nat; 2%nat] [2%nat; 1%nat] (NewReaderSize emptyRecord 4096)).
  - apply perm_swap.
  - right; right. intros target _. reflexivity.
Defined.

Lemma sniff_twice_same_witness :
  wf (NewReaderSize emptyRecord 4096)
  /\ forall r1 br1 r2 br2,
       ReadClientHelloInfo (helloFor "example.com") (NewReaderSize emptyRecord 4096) = (r1, br1) ->
       ReadClientHelloInfo (helloFor "example.com") br1 = (r2, br2) ->
       unread br1 = unread (NewReaderSize emptyRecord 4096)
       /\ unread br2 = unread (NewReaderSize emptyRecord 4096)
       /\ r2 = r1
       /\ fst (clientHelloServerName (helloFor "example.com") br1)
          = fst (clientHelloServerName (helloFor "example.com") (NewReaderSize emptyRecord 4096)).
Proof.
  split; [apply NewReaderSize_wf|].
  exact (sniff_twice_same (helloFor "example.com") (NewReaderSize emptyRecord 4096)
           (NewReaderSize_wf emptyRecord 4096)).
Defined.

(** The sniff of a hello record and of what is no TLS record. *)
Example sniff_example :
  fst (clientHelloServerName (helloFor "example.com") (NewReaderSize emptyRecord 4096))
  = "example.com"
  /\ fst (clientHelloServerName (helloFor "example.com")
            (NewReaderSize [Byte.x47; Byte.x45; Byte.x54; Byte.x20; Byte.x2f] 4096))
     = EmptyString
  /\ fst (clientHelloServerName (helloFor "example.com")
            (NewReaderSize [Byte.x16; Byte.x03] 4096))
     = EmptyString.
Proof. vm_compute. auto. Qed.

(** *** The matchers and the setup at work *)

(** Backends of which the one named [yes] presents a certificate for the
    name it is asked for, and the others fail the handshake. *)
Definition onlyBackend (yes : nat) : nat -> string -> error + list string :=
  fun target sni => if Nat.eqb target yes then inr [sni] else inl EOF.

Definition verifyName : string -> string -> option error :=
  fun cert sni => if String.eqb cert sni then None else Some (errorString "x509: wrong name").

Definition getRequest : list byte := [Byte.x47; Byte.x45; Byte.x54; Byte.x20; Byte.x2f].

Lemma clientHelloServerName_by_data_witness :
  wf (NewReaderSize (emptyRecord ++ getRequest) 4096)
  /\ fst (clientHelloServerName (helloFor "example.com")
            (NewReaderSize (emptyRecord ++ getRequest) 4096))
     = match helloFor "example.com" emptyRecord with
       | Some hello => ServerName hello
       | None => EmptyString
       end.
Proof.
  split; [apply NewReaderSize_wf|].
  exact (clientHelloServerName_by_data (helloFor "example.com")
           (NewReaderSize (emptyRecord ++ getRequest) 4096)
           (NewReaderSize_wf (emptyRecord ++ getRequest) 4096)).
Defined.

Lemma not_tls_routes_witness :
  wf (NewReaderSize getRequest 4096)
  /\ notTLS (unread (NewReaderSize getRequest 4096))
  /\ (forall m target targetFunc,
         fst (sniMatch_match (helloFor "example.com") nat m target targetFunc
                (NewReaderSize getRequest 4096))
         = Returns (None, EmptyString))
  /\ (forall lookup,
         fst (dynamicSNIMatch_match (helloFor "example.com") nat (Some lookup)
                (NewReaderSize getRequest 4096))
         = match lookup EmptyString with
           | (target, None) => (Some target, EmptyString)
           | (_, Some _) => (None, EmptyString)
           end)
  /\ fst (dynamicSNIMatch_match (helloFor "example.com") nat None
            (NewReaderSize getRequest 4096))
     = (None, EmptyString).
Proof.
  assert (Hno : notTLS (unread (NewReaderSize getRequest 4096)))
    by (right; vm_compute; discriminate).
  split; [apply NewReaderSize_wf|]. split; [exact Hno|].
  exact (not_tls_routes (helloFor "example.com") nat (NewReaderSize getRequest 4096)
           (NewReaderSize_wf getRequest 4096) Hno).
Defined.

Lemma matchers_only_peek_witness :
  wf (NewReaderSize emptyRecord 4096)
  /\ (forall m target targetFunc,
         unread (snd (sniMatch_match (helloFor "example.com") nat m target targetFunc
                        (NewReaderSize emptyRecord 4096)))
         = unread (NewReaderSize emptyRecord 4096))
  /\ (forall m target,
         unread (snd (sniMatch_match_plain (helloFor "example.com") nat m target
                        (NewReaderSize emptyRecord 4096)))
         = unread (NewReaderSize emptyRecord 4096))
  /\ (forall dynMatcher,
         unread (snd (dynamicSNIMatch_match (helloFor "example.com") nat dynMatcher
                        (NewReaderSize emptyRecord 4096)))
         = unread (NewReaderSize emptyRecord 4096))
  /\ (forall acmeTargets order,
         unread (snd (acmeMatch_match (helloFor "example.com") nat string
                        (onlyBackend 2) verifyName acmeTargets order
                        (NewReaderSize emptyRecord 4096)))
         = unread (NewReaderSize emptyRecord 4096)).
Proof.
  split; [apply NewReaderSize_wf|].
  exact (matchers_only_peek (helloFor "example.com") nat string (onlyBackend 2) verifyName
           (NewReaderSize emptyRecord 4096) (NewReaderSize_wf emptyRecord 4096)).
Defined.

Lemma acmeMatch_match_first_yes_witness :
  length [3%nat; 2%nat; 1%nat] = length [1%nat; 2%nat; 3%nat]
  /\ Strings.HasSuffix
       (fst (clientHelloServerName (helloFor "foo.acme.invalid")
               (NewReaderSize emptyRecord 4096)))
       ".acme.invalid" = true
  /\ fst (acmeMatch_match (helloFor "foo.acme.invalid") nat string
            (onlyBackend 2) verifyName
            [1%nat; 2%nat; 3%nat] [3%nat; 2%nat; 1%nat] (NewReaderSize emptyRecord 4096))
     = Some (Some 2%nat, "foo.acme.invalid").
Proof.
  assert (Hsuf : Strings.HasSuffix
            (fst (clientHelloServerName (helloFor "foo.acme.invalid")
                    (NewReaderSize emptyRecord 4096)))
            ".acme.invalid" = true) by (vm_compute; reflexivity).
  split; [reflexivity|]. split; [exact Hsuf|].
  refine (eq_trans
            (acmeMatch_match_first_yes (helloFor "foo.acme.invalid") nat string
               (onlyBackend 2) verifyName
               [1%nat; 2%nat; 3%nat] [3%nat; 2%nat; 1%nat] (NewReaderSize emptyRecord 4096)
               eq_refl Hsuf) _).
  vm_compute. reflexivity.
Defined.

Lemma acmeMatch_match_only_winner_witness :
  Permutation [2%nat; 1%nat] [1%nat; 2%nat]
  /\ Strings.HasSuffix
       (fst (clientHelloServerName (helloFor "foo.acme.invalid")
               (NewReaderSize emptyRecord 4096)))
       ".acme.invalid" = true
  /\ In 1%nat [1%nat; 2%nat]
  /\ acmeProbe nat string (onlyBackend 1) verifyName 1%nat
       (fst (clientHelloServerName (helloFor "foo.acme.invalid")
               (NewReaderSize emptyRecord 4096)))
     = Some 1%nat
  /\ fst (acmeMatch_match (helloFor "foo.acme.invalid") nat string
            (onlyBackend 1) verifyName
            [1%nat; 2%nat] [2%nat; 1%nat] (NewReaderSize emptyRecord 4096))
     = Some (Some 1%nat,
             fst (clientHelloServerName (helloFor "foo.acme.invalid")
                    (NewReaderSize emptyRecord 4096))).
Proof.
  assert (Hsuf : Strings.HasSuffix
            (fst (clientHelloServerName (helloFor "foo.acme.invalid")
                    (NewReaderSize emptyRecord 4096)))
            ".acme.invalid" = true) by (vm_compute; reflexivity).
  assert (Hyes : acmeProbe nat string (onlyBackend 1) verifyName 1%nat
            (fst (clientHelloServerName (helloFor "foo.acme.invalid")
                    (NewReaderSize emptyRecord 4096)))
          = Some 1%nat) by (vm_compute; reflexivity).
  split; [apply perm_swap|]. split; [exact Hsuf|]. split; [now left|]. split; [exact Hyes|].
  apply (acmeMatch_match_only_winner (helloFor "foo.acme.invalid") nat string
           (onlyBackend 1) verifyName
           [1%nat; 2%nat] [2%nat; 1%nat] (NewReaderSize emptyRecord 4096) 1%nat
           (perm_swap _ _ _) Hsuf (or_introl eq_refl) Hyes).
  intros t [<- | [<- | []]] Hy; [reflexivity|].
  exfalso. apply Hy. vm_compute. reflexivity.
Defined.

Lemma AddStopACMESearch_for_good_witness :
  stopACME nat (configFor nat (AddStopACMESearch nat (newProxy nat) ":443") ":443") = true
  /\ let p := AddStopACMESearch nat (newProxy nat) ":443" in
     let cs := [CallAddSNIRoute nat 7%N ":443" "a.test" 1%nat;
                CallAddSNIMatchRoute nat 8%N ":443" (equals "b.test") 2%nat] in
     stopACME nat (configFor nat (setup nat cs p) ":443") = true
     /\ acmeTargets nat (configFor nat (setup nat cs p) ":443")
        = acmeTargets nat (configFor nat p ":443")
     /\ countACME nat (routes nat (configFor nat (setup nat cs p) ":443"))
        = countACME nat (routes nat (configFor nat p ":443")).
Proof.
  assert (H : stopACME nat (configFor nat (AddStopACMESearch nat (newProxy nat) ":443") ":443")
              = true) by (vm_compute; reflexivity).
  split; [exact H|].
  exact (AddStopACMESearch_for_good nat
           [CallAddSNIRoute nat 7%N ":443" "a.test" 1%nat;
            CallAddSNIMatchRoute nat 8%N ":443" (equals "b.test") 2%nat]
           (AddStopACMESearch nat (newProxy nat) ":443") ":443" H).
Defined.

End Sni.

(** ** The tlsrouter command's config: static routes read from lines *)
Module TlsRouter.

Section Patterns.

(** regexp: [*regexp.Regexp], [regexp.Compile] and [MatchString];
    strconv: the quoting of the verb [%q]. *)
Variable Regexp : Type.
Variable Compile : string -> Regexp + error.
Variable MatchString : Regexp -> string -> bool.
Variable Quote : string -> string.

Record Route : Type := { match_ : Regexp; backend : string }.

(** [Config], the mutex left out. *)
Record Config : Type := { routes : list Route }.

Definition dnsRegex (s : string) : Regexp + error := Compile s.

(** The loop of [Config.Match]. *)
Fixpoint matchRoutes (rs : list Route) (hostname : string) : string :=
  match rs with
  | [] => EmptyString
  | r :: rs' =>
    if MatchString (match_ r) hostname then backend r else matchRoutes rs' hostname
  end.

(** [Config.Match]. *)
Definition Match (c : Config) (hostname : string) : string :=
  matchRoutes (routes c) hostname.

(** The loop of [Config.Read] over the lines the scanner delivers; [routes]
    is the local slice. *)
Fixpoint readLines (ls : list string) (routes : list Route) : list Route + error :=
  match ls with
  | [] => inl routes
  | text :: ls' =>
    let fs := Strings.Fields text in
    match fs with
    | [] => readLines ls' routes
    | [_] => inr (errorString ("invalid " +:+ Quote text +:+ " on a line by itself"))
    | [f0; f1] =>
      match dnsRegex f0 with
      | inr err => inr err
      | inl re => readLines ls' (routes ++ [{| match_ := re; backend := f1 |}])
      end
    | _ => inr (errorString ("too many fields on line: " +:+ Quote text))
    end
  end.

(** [Config.Read], on what a scanner over the reader yields: the error
    returned and the config afterwards. *)
Definition Read (c : Config) (s : Bufio.Scanned) : option error * Config :=
  match readLines (Bufio.lines s) [] with
  | inr err => (Some err, c)
  | inl routes =>
    match Bufio.scanErr s with
    | Some err => (Some err, c)
    | None => (None, {| routes := routes |})
    end
  end.

(** *** What a successful read stores *)

(** The route a line stands for, if it has two fields and its pattern
    compiles. *)
Definition routeOf (text : string) : list Route :=
  match Strings.Fields text with
  | [f0; f1] =>
    match dnsRegex f0 with
    | inl re => [{| match_ := re; backend := f1 |}]
    | inr _ => []
    end
  | _ => []
  end.

Definition blank (text : string) : bool :=
  match Strings.Fields text with
  | [] => true
  | _ => false
  end.

(** A line the loop stops at with an error. *)
Definition badLine (text : string) : bool :=
  match Strings.Fields text with
  | [] => false
  | [_] => true
  | [f0; _] => match dnsRegex f0 with inl _ => false | inr _ => true end
  | _ => true
  end.

Lemma readLines_ok (ls : list string) (acc : list Route) :
  forallb (fun text => negb (badLine text)) ls = true ->
  readLines ls acc = inl (acc ++ flat_map routeOf ls).
Proof.
  revert acc. induction ls as [|text ls IH]; intros acc H; simpl in *.
  - now rewrite app_nil_r.
  - apply andb_prop in H as [Hb H]. unfold badLine in Hb. unfold routeOf.
    destruct (Strings.Fields text) as [|f0 [|f1 [|f2 fs]]]; simpl in *; try discriminate.
    + now apply IH.
    + destruct (dnsRegex f0); [|discriminate].
      rewrite IH by assumption. now rewrite <- app_assoc.
Qed.

Lemma readLines_bad (ls : list string) (acc : list Route) :
  forallb (fun text => negb (badLine text)) ls = false ->
  exists err, readLines ls acc = inr err.
Proof.
  revert acc. induction ls as [|text ls IH]; intros acc H; simpl in *; [discriminate|].
  unfold badLine in H.
  destruct (Strings.Fields text) as [|f0 [|f1 [|f2 fs]]]; simpl in *; eauto.
  destruct (dnsRegex f0); simpl in *; eauto.
Qed.

Lemma readLines_blank (ls : list string) (acc : list Route) :
  readLines (List.filter (fun text => negb (blank text)) ls) acc = readLines ls acc.
Proof.
  revert acc. induction ls as [|text ls IH]; intros acc; simpl; [reflexivity|].
  unfold blank.
  destruct (Strings.Fields text) as [|f0 [|f1 [|f2 fs]]] eqn:E; simpl; rewrite ?E; auto.
  destruct (dnsRegex f0); auto.
Qed.

Lemma badLine_exists (ls : list string) (text : string) :
  In text ls -> badLine text = true ->
  forallb (fun text => negb (badLine text)) ls = false.
Proof.
  intros Hin Hbad.
  destruct (forallb (fun text => negb (badLine text)) ls) eqn:E; [|reflexivity].
  rewrite forallb_forall in E. specialize (E text Hin). rewrite Hbad in E. discriminate.
Qed.

Lemma matchRoutes_find (rs : list Route) (hostname : string) :
  matchRoutes rs hostname
  = match List.find (fun r => MatchString (match_ r) hostname) rs with
    | Some r => backend r
    | None => EmptyString
    end.
Proof.
  induction rs as [|r rs IH]; simpl; [reflexivity|].
  destruct (MatchString (match_ r) hostname); [reflexivity | exact IH].
Qed.

(** C8. Reading the routing config: blank lines change nothing; a line with
    one field, and a line with three fields or more, make [Read] return an
    error; when every line is blank or has two fields of which the first
    compiles, and the scanner reports no error, [Read] returns none and stores
    one route for each two-field line, pattern and backend, in the order of
    the lines; when [Read] returns none, the routes are those of the two-field
    lines, in the order of the lines. [Match] returns the backend of the first
    route, in that order, whose pattern matches the hostname, whatever routes
    follow it, and the empty string when none matches. *)
Theorem Read_Match_in_file_order (c : Config) (s : Bufio.Scanned) :
  (Forall (fun text => Strings.Fields text = []
                       \/ exists f0 f1 re,
                            Strings.Fields text = [f0; f1] /\ Compile f0 = inl re)
          (Bufio.lines s) ->
   Bufio.scanErr s = None ->
   Read c s = (None, {| routes := flat_map routeOf (Bufio.lines s) |}))
  /\ (forall text f0 f1 re,
        Strings.Fields text = [f0; f1] -> Compile f0 = inl re ->
        routeOf text = [{| match_ := re; backend := f1 |}])
  /\ (Read c {| Bufio.lines := List.filter (fun text => negb (blank text)) (Bufio.lines s);
             Bufio.scanErr := Bufio.scanErr s |}
   = Read c s)
  /\ (forall text,
        In text (Bufio.lines s) -> length (Strings.Fields text) = 1%nat ->
        exists err, fst (Read c s) = Some err)
  /\ (forall text,
        In text (Bufio.lines s) -> (3 <= length (Strings.Fields text))%nat ->
        exists err, fst (Read c s) = Some err)
  /\ (fst (Read c s) = None ->
      routes (snd (Read c s)) = flat_map routeOf (Bufio.lines s)
      /\ Forall (fun text => length (Strings.Fields text) = 0%nat
                             \/ (length (Strings.Fields text) = 2%nat
                                 /\ length (routeOf text) = 1%nat))
                (Bufio.lines s))
  /\ (forall hostname,
        Match c hostname
        = match List.find (fun r => MatchString (match_ r) hostname) (routes c) with
          | Some r => backend r
          | None => EmptyString
          end)
  /\ (forall before r after hostname,
        routes c = before ++ r :: after ->
        Forall (fun r' => MatchString (match_ r') hostname = false) before ->
        MatchString (match_ r) hostname = true ->
        Match c hostname = backend r).
Proof.
  split; [|split; [|split; [|split; [|split; [|split; [|split]]]]]].
  - intros Hall Hscan. unfold Read. rewrite readLines_ok, Hscan; [reflexivity|].
    apply forallb_forall. intros text Hin.
    rewrite List.Forall_forall in Hall. specialize (Hall text Hin). unfold badLine, dnsRegex.
    destruct Hall as [-> | (f0 & f1 & re & -> & ->)]; reflexivity.
  - intros text f0 f1 re Hfs Hre. unfold routeOf, dnsRegex. now rewrite Hfs, Hre.
  - unfold Read. simpl. now rewrite readLines_blank.
  - intros text Hin Hone.
    assert (Hbad : badLine text = true).
    { unfold badLine. destruct (Strings.Fields text) as [|f0 [|f1 fs]]; simpl in *;
        try discriminate; reflexivity. }
    destruct (readLines_bad _ [] (badLine_exists _ _ Hin Hbad)) as [err Herr].
    unfold Read. rewrite Herr. eauto.
  - intros text Hin Hmany.
    assert (Hbad : badLine text = true).
    { unfold badLine. destruct (Strings.Fields text) as [|f0 [|f1 [|f2 fs]]]; simpl in *;
        try lia; reflexivity. }
    destruct (readLines_bad _ [] (badLine_exists _ _ Hin Hbad)) as [err Herr].
    unfold Read. rewrite Herr. eauto.
  - unfold Read.
    destruct (forallb (fun text => negb (badLine text)) (Bufio.lines s)) eqn:Hall.
    + rewrite (readLines_ok _ [] Hall). simpl.
      destruct (Bufio.scanErr s); simpl; [discriminate|]. intros _. split; [reflexivity|].
      apply List.Forall_forall. intros text Hin.
      rewrite forallb_forall in Hall. specialize (Hall text Hin).
      unfold badLine in Hall. unfold routeOf.
      destruct (Strings.Fields text) as [|f0 [|f1 [|f2 fs]]]; simpl in *;
        try discriminate; auto.
      destruct (dnsRegex f0); simpl in *; [auto | discriminate].
    + destruct (readLines_bad _ [] Hall) as [err Herr]. rewrite Herr. discriminate.
  - intros hostname. apply matchRoutes_find.
  - intros before r after hostname Hr Hbefore Hmatch. unfold Match. rewrite Hr.
    clear Hr. induction Hbefore as [|r' before Hr' _ IH]; simpl.
    + now rewrite Hmatch.
    + now rewrite Hr'.
Qed.

(** C10. A read that returns an error leaves the config as it was: the
    routes are replaced only when every line was read without error and the
    scanner reports none. *)
Theorem Read_atomic (c : Config) (s : Bufio.Scanned) :
  (forall err, fst (Read c s) = Some err -> snd (Read c s) = c)
  /\ (fst (Read c s) = None <->
      forallb (fun text => negb (badLine text)) (Bufio.lines s) = true
      /\ Bufio.scanErr s = None)
  /\ (fst (Read c s) = None -> routes (snd (Read c s)) = flat_map routeOf (Bufio.lines s)).
Proof.
  unfold Read.
  destruct (forallb (fun text => negb (badLine text)) (Bufio.lines s)) eqn:Hall.
  - rewrite (readLines_ok _ [] Hall). simpl.
    destruct (Bufio.scanErr s) as [e|]; simpl.
    + split; [reflexivity|]. split; [|discriminate].
      split; [discriminate | intros [_ H]; discriminate].
    + split; [discriminate|]. split; [|reflexivity]. split; auto.
  - destruct (readLines_bad _ [] Hall) as [err Herr]. rewrite Herr. simpl.
    split; [reflexivity|]. split; [|discriminate].
    split; [discriminate | intros [H _]; discriminate].
Qed.

(** *** Which error a read returns *)

(** The error the loop of [Config.Read] returns at a line, if it returns
    there. *)
Definition lineError (text : string) : option error :=
  match Strings.Fields text with
  | [] => None
  | [_] => Some (errorString ("invalid " +:+ Quote text +:+ " on a line by itself"))
  | [f0; _] =>
    match dnsRegex f0 with
    | inr err => Some err
    | inl _ => None
    end
  | _ => Some (errorString ("too many fields on line: " +:+ Quote text))
  end.

Lemma readLines_first_error (good rest : list string) (bad : string) (err : error)
    (acc : list Route) :
  Forall (fun text => lineError text = None) good ->
  lineError bad = Some err ->
  readLines (good ++ bad :: rest) acc = inr err.
Proof.
  intros Hgood Hbad. revert acc.
  induction Hgood as [|text good Htext _ IH]; intros acc; cbn [app readLines].
  - unfold lineError in Hbad.
    destruct (Strings.Fields bad) as [|f0 [|f1 [|f2 fs]]]; try congruence.
    destruct (dnsRegex f0); congruence.
  - unfold lineError in Htext.
    destruct (Strings.Fields text) as [|f0 [|f1 [|f2 fs]]]; try discriminate; [apply IH|].
    destruct (dnsRegex f0); [apply IH | discriminate].
Qed.

(** X16. [Read] returns the error of the first line it cannot take, in the order
    of the lines: neither what follows that line (a worse line, a line the
    scanner could not deliver) nor the routes read before it play a part,
    and the config is left as it was. A line with one field gives "invalid
    ... on a line by itself" with the line quoted, a line of two fields the
    error of [regexp.Compile] on the first, a longer line "too many fields
    on line: ..." with the line quoted. *)
Theorem Read_first_error (c : Config) (good rest : list string) (bad : string)
    (scanErr : option error) (err : error) :
  Forall (fun text => lineError text = None) good ->
  lineError bad = Some err ->
  Read c {| Bufio.lines := good ++ bad :: rest; Bufio.scanErr := scanErr |} = (Some err, c)
  /\ match Strings.Fields bad with
     | [] => False
     | [_] => err = errorString ("invalid " +:+ Quote bad +:+ " on a line by itself")
     | [f0; _] => Compile f0 = inr err
     | _ => err = errorString ("too many fields on line: " +:+ Quote bad)
     end.
Proof.
  intros Hgood Hbad. split.
  - unfold Read. cbn [Bufio.lines]. now rewrite (readLines_first_error good rest bad err).
  - unfold lineError, dnsRegex in Hbad.
    destruct (Strings.Fields bad) as [|f0 [|f1 [|f2 fs]]]; try congruence.
    destruct (Compile f0); congruence.
Qed.

(** *** The empty string means no match *)

Lemma routeOf_backend (text : string) :
  Forall (fun r => backend r <> EmptyString) (routeOf text).
Proof.
  unfold routeOf. pose proof (Strings.Fields_nonempty text) as H.
  destruct (Strings.Fields text) as [|f0 [|f1 [|f2 fs]]]; try constructor.
  destruct (dnsRegex f0); constructor; [|constructor].
  cbn [backend]. inversion H as [|? ? _ H1]. now inversion H1.
Qed.

Lemma matchRoutes_empty (rs : list Route) (hostname : string) :
  Forall (fun r => backend r <> EmptyString) rs ->
  matchRoutes rs hostname = EmptyString
  <-> Forall (fun r => MatchString (match_ r) hostname = false) rs.
Proof.
  induction 1 as [|r rs Hr _ IH]; cbn [matchRoutes].
  - split; [constructor | reflexivity].
  - destruct (MatchString (match_ r) hostname) eqn:E.
    + split; [contradiction|]. intros H. inversion H; congruence.
    + rewrite IH. split; [now constructor | intros H; now inversion H].
Qed.

(** X17. After a read that returned no error no route has an empty backend, so
    [Match] returns the empty string only when no pattern matches the
    hostname: a match is never mistaken for none. *)
Theorem Read_Match_empty_iff (c : Config) (s : Bufio.Scanned) :
  fst (Read c s) = None ->
  Forall (fun r => backend r <> EmptyString) (routes (snd (Read c s)))
  /\ (forall hostname,
         Match (snd (Read c s)) hostname = EmptyString
         <-> Forall (fun r => MatchString (match_ r) hostname = false)
                    (routes (snd (Read c s)))).
Proof.
  intros Hok.
  assert (Hb : Forall (fun r => backend r <> EmptyString) (routes (snd (Read c s)))).
  { revert Hok. unfold Read.
    destruct (forallb (fun text => negb (badLine text)) (Bufio.lines s)) eqn:Hall.
    - rewrite (readLines_ok _ [] Hall). cbn [app].
      destruct (Bufio.scanErr s); [discriminate|]. intros _. cbn [snd routes].
      induction (Bufio.lines s) as [|text ls IH]; [constructor|].
      cbn [flat_map forallb] in *. apply andb_prop in Hall as [_ Hall].
      apply Forall_app. split; [apply routeOf_backend | now apply IH].
    - destruct (readLines_bad _ [] Hall) as [err ->]. discriminate. }
  split; [exact Hb|]. intros hostname. now apply matchRoutes_empty.
Qed.

End Patterns.

(** *** The theorems at work *)

(** Patterns taken literally: a pattern matches the hostname equal to it. *)
Definition literally (s : string) : string + error := inl s.

Definition newline : string := String "010"%char EmptyString.

Definition twoRoutes : string :=
  "a.test 10.0.0.1:443" +:+ newline +:+ newline +:+ "b.test 10.0.0.2:443" +:+ newline.

Example Read_example :
  Read string literally id {| routes := [] |} (Bufio.NewScanner twoRoutes None)
  = (None, {| routes := [ {| match_ := "a.test"; backend := "10.0.0.1:443" |};
                          {| match_ := "b.test"; backend := "10.0.0.2:443" |} ] |})
  /\ Match string String.eqb
       (snd (Read string literally id {| routes := [] |} (Bufio.NewScanner twoRoutes None)))
       "b.test" = "10.0.0.2:443"
  /\ Match string String.eqb
       (snd (Read string literally id {| routes := [] |} (Bufio.NewScanner twoRoutes None)))
       "c.test" = EmptyString
  /\ (exists err,
        Read string literally id
          {| routes := [ {| match_ := "old.test"; backend := "10.0.0.9:443" |} ] |}
          (Bufio.NewScanner (twoRoutes +:+ "alone" +:+ newline) None)
        = (Some err, {| routes := [ {| match_ := "old.test"; backend := "10.0.0.9:443" |} ] |})).
Proof.
  split; [vm_compute; reflexivity|]. split; [vm_compute; reflexivity|].
  split; [vm_compute; reflexivity|]. eexists. vm_compute. reflexivity.
Qed.

(** A file whose third line stands alone, before a line of three fields. *)
Lemma Read_first_error_witness :
  Forall (fun text => lineError string literally id text = None) ["a.test 10.0.0.1:443"; ""]
  /\ lineError string literally id "alone"
     = Some (errorString ("invalid " +:+ "alone" +:+ " on a line by itself"))
  /\ Read string literally id
       {| routes := [ {| match_ := "old.test"; backend := "10.0.0.9:443" |} ] |}
       {| Bufio.lines := ["a.test 10.0.0.1:443"; ""] ++ "alone" :: ["x y z"];
          Bufio.scanErr := Some ErrTooLong |}
     = (Some (errorString ("invalid " +:+ "alone" +:+ " on a line by itself")),
        {| routes := [ {| match_ := "old.test"; backend := "10.0.0.9:443" |} ] |})
  /\ errorString ("invalid " +:+ "alone" +:+ " on a line by itself")
     = errorString ("invalid " +:+ id "alone" +:+ " on a line by itself").
Proof.
  assert (Hgood : Forall (fun text => lineError string literally id text = None)
                         ["a.test 10.0.0.1:443"; ""])
    by (repeat constructor).
  assert (Hbad : lineError string literally id "alone"
                 = Some (errorString ("invalid " +:+ "alone" +:+ " on a line by itself")))
    by (vm_compute; reflexivity).
  split; [exact Hgood|]. split; [exact Hbad|].
  exact (Read_first_error string literally id
           {| routes := [ {| match_ := "old.test"; backend := "10.0.0.9:443" |} ] |}
           ["a.test 10.0.0.1:443"; ""] ["x y z"] "alone" (Some ErrTooLong) _ Hgood Hbad).
Defined.

Lemma Read_Match_empty_iff_witness :
  fst (Read string literally id {| routes := [] |} (Bufio.NewScanner twoRoutes None)) = None
  /\ Forall (fun r => backend string r <> EmptyString)
       (routes string
          (snd (Read string literally id {| routes := [] |} (Bufio.NewScanner twoRoutes None))))
  /\ (forall hostname,
         Match string String.eqb
           (snd (Read string literally id {| routes := [] |} (Bufio.NewScanner twoRoutes None)))
           hostname = EmptyString
         <-> Forall (fun r => String.eqb (match_ string r) hostname = false)
               (routes string
                  (snd (Read string literally id {| routes := [] |}
                          (Bufio.NewScanner twoRoutes None))))).
Proof.
  assert (H : fst (Read string literally id {| routes := [] |}
                     (Bufio.NewScanner twoRoutes None)) = None)
    by (vm_compute; reflexivity).
  split; [exact H|].
  exact (Read_Match_empty_iff string literally String.eqb id {| routes := [] |}
           (Bufio.NewScanner twoRoutes None) H).
Defined.

End TlsRouter.
